(** * FCR receipt extractor: a shallow embedding of [Project.py]

    The program reads a PDF page by page, recovers a receipt identifier
    from the text of each page with three regular expressions, groups the
    pages into one inclusive range per identifier, and writes one PDF per
    identifier.

    Texts are Python [str] values: sequences of Unicode code points.  The
    PDF, rasterisation and OCR libraries are collaborators whose answers
    are given by a type class; files live in a small model of the disk. *)

From Stdlib Require Import ZArith NArith Lia String Ascii.
From stdpp Require Import base option list gmap sorting.

Local Open Scope Z_scope.

(** ** Texts *)

(** A Python [str] is a list of code points. *)
Abbreviation str := (list N).

(** A string literal of the source, as the code points of its characters
    (for literals written in ASCII). *)
Definition lit (s : string) : str :=
  List.map N_of_ascii (list_ascii_of_string s).

(** Python truthiness of a [str]: the empty string is falsy. *)
Definition truthy (s : str) : bool :=
  match s with [] => false | _ :: _ => true end.

(** Truthiness of a value that is [None] or a [str]. *)
Definition truthy_opt (o : option str) : bool :=
  match o with None => false | Some s => truthy s end.

(** ** The Unicode character database

    [str.isspace], and with it [\s] and [str.strip], is a short table that
    is written out.  Which code points beyond ASCII are decimal digits
    ([\d]) and which are alphanumeric ([\w]) depends on the Unicode version
    of the interpreter: that part of the database is a parameter. *)

Class UnicodeData := {
  decimal_beyond_ascii : N -> bool;
  alnum_beyond_ascii : N -> bool
}.

Module Uni.

Definition in_range (lo hi c : N) : bool := ((lo <=? c) && (c <=? hi))%N.

(** [str.isspace] of one code point. *)
Definition isspace (c : N) : bool :=
  (in_range 0x09 0x0D c || in_range 0x1C 0x20 c || (c =? 0x85) || (c =? 0xA0)
   || (c =? 0x1680) || in_range 0x2000 0x200A c || (c =? 0x2028)
   || (c =? 0x2029) || (c =? 0x202F) || (c =? 0x205F) || (c =? 0x3000))%N.

Definition is_ascii_digit (c : N) : bool := in_range 0x30 0x39 c.
Definition is_ascii_upper (c : N) : bool := in_range 0x41 0x5A c.
Definition is_ascii_lower (c : N) : bool := in_range 0x61 0x7A c.

Section WithData.
Context `{UnicodeData}.

(** [str.isdecimal] of one code point: the class [\d]. *)
Definition isdecimal (c : N) : bool :=
  if (c <? 128)%N then is_ascii_digit c else decimal_beyond_ascii c.

(** The class [\w]: [str.isalnum] or the underscore. *)
Definition isword (c : N) : bool :=
  if (c <? 128)%N
  then is_ascii_digit c || is_ascii_upper c || is_ascii_lower c || (c =? 0x5F)%N
  else alnum_beyond_ascii c.
End WithData.

Definition ascii_upper (c : N) : N :=
  if is_ascii_lower c then (c - 32)%N else c.

(** Case folding as far as the patterns of this program need it: the
    letters A-Z fold to a-z, and so do the four code points beyond ASCII
    that the [re] module equates with an ASCII letter under [IGNORECASE]
    (U+0130 and U+0131 with i, U+017F with s, U+212A with k). *)
Definition case_fold (c : N) : N :=
  if is_ascii_upper c then (c + 32)%N
  else if ((c =? 0x130) || (c =? 0x131))%N then 0x69%N
  else if (c =? 0x17F)%N then 0x73%N
  else if (c =? 0x212A)%N then 0x6B%N
  else c.

(** [str.strip()]: whitespace removed at both ends. *)
Fixpoint lstrip (s : str) : str :=
  match s with
  | c :: r => if isspace c then lstrip r else s
  | [] => []
  end.

Definition strip (s : str) : str := rev (lstrip (rev (lstrip s))).

End Uni.

(** ** Regular expressions

    The fragment of Python's [re] that the program uses: a pattern is a
    sequence of single-character atoms, each under a greedy quantifier,
    with the parentheses of one capture group between them. *)

Module Re.

Inductive class_item :=
| CChar (c : N)           (* one character *)
| CRange (lo hi : N)      (* lo-hi *)
| CSpace                  (* \s *)
| CDigit                  (* \d *)
| CWord.                  (* \w *)

Inductive atom :=
| Lit (c : N)                               (* a literal character *)
| Space                                     (* \s *)
| In (negate : bool) (items : list class_item).   (* [...] and [^...] *)

Inductive node :=
| Rep (a : atom) (lo : nat) (hi : option nat)   (* a{lo,hi}, greedy *)
| GroupOpen
| GroupClose.

Abbreviation pattern := (list node).

Definition one (a : atom) : node := Rep a 1 (Some 1%nat).
Definition star (a : atom) : node := Rep a 0 None.
Definition plus (a : atom) : node := Rep a 1 None.
Definition opt (a : atom) : node := Rep a 0 (Some 1%nat).

(** The literal characters of a word, each matched once. *)
Definition word (s : str) : pattern := List.map (fun c => one (Lit c)) s.

Section Matching.
Context `{UnicodeData}.

(** [ic] is the flag [re.IGNORECASE]. *)
Definition item_matches (ic : bool) (i : class_item) (c : N) : bool :=
  match i with
  | CChar x => if ic then (Uni.case_fold c =? Uni.case_fold x)%N else (c =? x)%N
  | CRange lo hi =>
      Uni.in_range lo hi c
      || (ic && (Uni.in_range lo hi (Uni.case_fold c)
                 || Uni.in_range lo hi (Uni.ascii_upper (Uni.case_fold c))))
  | CSpace => Uni.isspace c
  | CDigit => Uni.isdecimal c
  | CWord => Uni.isword c
  end.

Definition atom_matches (ic : bool) (a : atom) (c : N) : bool :=
  match a with
  | Lit x => if ic then (Uni.case_fold c =? Uni.case_fold x)%N else (c =? x)%N
  | Space => Uni.isspace c
  | In negate items => xorb negate (existsb (fun i => item_matches ic i c) items)
  end.

(** How many leading characters of [s] satisfy [p], at most [hi]. *)
Fixpoint count_prefix (p : N -> bool) (hi : option nat) (s : str) : nat :=
  match hi with
  | Some O => O
  | _ =>
      match s with
      | c :: r => if p c then S (count_prefix p (pred <$> hi) r) else O
      | [] => O
      end
  end.

(** Backtracking: the continuation [k] is tried at [n], [n-1], ...
    down to [lo]; the first success wins. *)
Fixpoint try_down {R} (k : nat -> option R) (lo n : nat) : option R :=
  if (n <? lo)%nat then None
  else match k n with
       | Some r => Some r
       | None => match n with O => None | S n' => try_down k lo n' end
       end.

(** [run ic p rest pos gopen cap] matches [p] at position [pos] of the
    subject, where [rest] is the subject from [pos] on.  On success it
    gives the end position and the span of the capture group. *)
Fixpoint run (ic : bool) (p : pattern) (rest : str) (pos gopen : nat)
    (cap : option (nat * nat)) : option (nat * option (nat * nat)) :=
  match p with
  | [] => Some (pos, cap)
  | GroupOpen :: p' => run ic p' rest pos pos cap
  | GroupClose :: p' => run ic p' rest pos gopen (Some (gopen, pos))
  | Rep a lo hi :: p' =>
      try_down
        (fun k => run ic p' (drop k rest) (pos + k)%nat gopen cap)
        lo (count_prefix (atom_matches ic a) hi rest)
  end.

(** The text of the capture group of a match ([''] when the group took
    no part in it). *)
Definition group_text (subject : str) (cap : option (nat * nat)) : str :=
  match cap with
  | Some (b, e) => take (e - b) (drop b subject)
  | None => []
  end.

(** [re.findall] for a pattern with one group: the group of every
    match, scanning from left to right; matches do not overlap.
    [skip] counts the positions still inside the previous match. *)
Fixpoint findall_from (ic : bool) (p : pattern) (subject rest : str)
    (pos skip : nat) : list str :=
  match skip with
  | S skip' =>
      match rest with
      | _ :: r => findall_from ic p subject r (S pos) skip'
      | [] => []
      end
  | O =>
      match run ic p rest pos pos None with
      | Some (e, cap) =>
          group_text subject cap ::
          match rest with
          | _ :: r => findall_from ic p subject r (S pos) (e - pos - 1)
          | [] => []
          end
      | None =>
          match rest with
          | _ :: r => findall_from ic p subject r (S pos) O
          | [] => []
          end
      end
  end.

Definition findall (p : pattern) (subject : str) (ic : bool) : list str :=
  findall_from ic p subject subject O O.

(** [re.sub(p, repl, subject)] for a literal replacement: every match
    is replaced, the characters between the matches are kept. *)
Fixpoint sub_from (p : pattern) (repl rest : str) (pos skip : nat) : str :=
  match skip with
  | S skip' =>
      match rest with
      | _ :: r => sub_from p repl r (S pos) skip'
      | [] => []
      end
  | O =>
      match run false p rest pos pos None with
      | Some (e, _) =>
          repl ++
          match rest with
          | c :: r =>
              (if (e =? pos)%nat then [c] else [])
              ++ sub_from p repl r (S pos) (e - pos - 1)
          | [] => []
          end
      | None =>
          match rest with
          | c :: r => c :: sub_from p repl r (S pos) O
          | [] => []
          end
      end
  end.

Definition sub (p : pattern) (repl subject : str) : str :=
  sub_from p repl subject O O.

End Matching.
End Re.

(** ** Outcomes, the disk and the journal *)

(** A Python call returns a value or raises an exception; an exception is
    kept as its message [str(e)].  The exceptions of the model are library
    failures, instances of [Exception]. *)
Inductive result (A : Type) :=
| Ok (a : A)
| Raise (e : str).
Arguments Ok {A} a.
Arguments Raise {A} e.

(** The libraries behind the program.  Each answer is the outcome of one
    call: the result, or the exception it raises. *)
Class Collaborators (Page Image : Type) := {
  (* PyPDF2: page.extract_text() *)
  page_extract_text : Page -> result str;
  (* open(path, "wb") followed by PdfWriter.write: the exception, if one is raised *)
  pdf_write_error : str -> list Page -> option str;
  (* pdf2image/poppler on the pages of a file: poppler_path, dpi, fmt *)
  rasterize : list Page -> str -> Z -> str -> result (list Image);
  (* pytesseract.image_to_string(image, lang) *)
  image_to_string : Image -> str -> result str;
  (* os.path.join *)
  path_join : str -> str -> str
}.

Section Program.
Context `{UnicodeData} {Page Image : Type} `{!Collaborators Page Image}.

(** What the program does to the outside, in order. *)
Inductive event :=
| Wrote (path : str) (doc : list Page)
| Rasterized (path poppler_path : str) (dpi : Z) (fmt : str)
| Recognized (image : Image) (lang : str)
| StError (message : str).

(** The files (a PDF file is the list of its pages) and the journal of
    events so far. *)
Record world := World {
  disk : gmap str (list Page);
  journal : list event
}.

(** A computation reads and changes the world and returns or raises. *)
Definition M (A : Type) : Type := world -> result A * world.

Definition ret {A} (a : A) : M A := fun w => (Ok a, w).

Definition bind {A B} (m : M A) (k : A -> M B) : M B :=
  fun w => match m w with
           | (Ok a, w') => k a w'
           | (Raise e, w') => (Raise e, w')
           end.

(** [try: body except Exception as e: handler e] *)
Definition try_except {A} (body : M A) (handler : str -> M A) : M A :=
  fun w => match body w with
           | (Ok a, w') => (Ok a, w')
           | (Raise e, w') => handler e w'
           end.

Definition lift {A} (r : result A) : M A := fun w => (r, w).

Definition log (ev : event) : M unit :=
  fun w => (Ok tt, World (disk w) (journal w ++ [ev])).

End Program.

Arguments event : clear implicits.
Arguments world : clear implicits.
Arguments M : clear implicits.

Notation "x <- m ;; k" := (bind m (fun x => k))
  (at level 100, m at next level, right associativity).
Notation "m ;;; k" := (bind m (fun _ => k))
  (at level 100, right associativity).

(** ** The program *)

Definition POPPLER_PATH : str := lit "C:\poppler\Library\bin".
Definition TESSERACT_PATH : str := lit "C:\Program Files\Tesseract-OCR\tesseract.exe".

(** The class [[A-Z0-9]]. *)
Definition alnum_class : Re.atom :=
  Re.In false [Re.CRange 0x41 0x5A; Re.CRange 0x30 0x39].

(** The three patterns of [find_fcr_ranges], in the order of the list:
    - [RECEIPT\s*NO[.:]?\s*([A-Z0-9]+[\(\d+\)]?)]
    - [FCR\s*NO[.:]?\s*([A-Z0-9]+)]
    - the Arabic label (U+0631 U+0642 U+0645, [\s*], U+0627 U+0644 U+0625
      U+064A U+0635 U+0627 U+0644) followed by [[\s:]*([A-Z0-9]+)] *)
Definition patterns : list Re.pattern :=
  [ Re.word (lit "RECEIPT") ++ [Re.star Re.Space] ++ Re.word (lit "NO")
      ++ [Re.opt (Re.In false [Re.CChar 0x2E; Re.CChar 0x3A]); Re.star Re.Space;
          Re.GroupOpen; Re.plus alnum_class;
          Re.opt (Re.In false [Re.CChar 0x28; Re.CDigit; Re.CChar 0x2B; Re.CChar 0x29]);
          Re.GroupClose];
    Re.word (lit "FCR") ++ [Re.star Re.Space] ++ Re.word (lit "NO")
      ++ [Re.opt (Re.In false [Re.CChar 0x2E; Re.CChar 0x3A]); Re.star Re.Space;
          Re.GroupOpen; Re.plus alnum_class; Re.GroupClose];
    Re.word [0x631; 0x642; 0x645]%N ++ [Re.star Re.Space]
      ++ Re.word [0x627; 0x644; 0x625; 0x64A; 0x635; 0x627; 0x644]%N
      ++ [Re.star (Re.In false [Re.CSpace; Re.CChar 0x3A]);
          Re.GroupOpen; Re.plus alnum_class; Re.GroupClose] ].

(** The pattern [[^\w\-_\. ]] of [split_pdf_by_fcr_ranges]. *)
Definition unsafe_char : Re.pattern :=
  [ Re.one (Re.In true [Re.CWord; Re.CChar 0x2D; Re.CChar 0x5F; Re.CChar 0x2E;
                        Re.CChar 0x20]) ].

(** The dictionary [fcr_ranges]: a Python [dict] keeps its keys in the
    order of their first insertion, and an assignment to a key that is
    present replaces the value where it stands. *)
Abbreviation dict := (list (str * (Z * Z))).

Fixpoint dict_set (k : str) (v : Z * Z) (d : dict) : dict :=
  match d with
  | [] => [(k, v)]
  | (k', v') :: r => if decide (k' = k) then (k, v) :: r else (k', v') :: dict_set k v r
  end.

(** The variables of the loop of [find_fcr_ranges]. *)
Record seg_state := SegState {
  fcr_ranges : dict;
  current_fcr : option str;
  start_page : Z
}.

Section Functions.
Context `{UnicodeData} {Page Image : Type} `{!Collaborators Page Image}.

Abbreviation M' := (M Page Image).

(** [with open(path, "wb") as f: writer.write(f)] for a writer that holds
    the pages [doc].  A write that raises leaves the disk of the model as
    it was: nothing in the program reads the file of a failed write. *)
Definition write_pdf (path : str) (doc : list Page) : M' unit :=
  fun w => match pdf_write_error path doc with
           | Some e => (Raise e, w)
           | None => (Ok tt, World (<[path := doc]> (disk w))
                                   (journal w ++ [Wrote path doc]))
           end.

(** [convert_from_path(path, poppler_path=..., dpi=..., fmt=...)] *)
Definition convert_from_path (path poppler_path : str) (dpi : Z) (fmt : str)
    : M' (list Image) :=
  log (Rasterized path poppler_path dpi fmt) ;;;
  fun w => match disk w !! path with
           | Some doc => (rasterize doc poppler_path dpi fmt, w)
           | None => (Raise (lit "Unable to get page count."), w)
           end.

(** [pytesseract.image_to_string(image, lang=...)] *)
Definition ocr (image : Image) (lang : str) : M' str :=
  log (Recognized image lang) ;;; lift (image_to_string image lang).

(** [st.error(message)] *)
Definition st_error (message : str) : M' unit := log (StError message).

Definition extract_text_from_page (page : Page) (temp_dir : str) : M' str :=
  try_except
    (text <- lift (page_extract_text page) ;;
     if truthy text && truthy (Uni.strip text) then ret text
     else
       let temp_pdf_path := path_join temp_dir (lit "temp_page.pdf") in
       write_pdf temp_pdf_path [page] ;;;
       images <- convert_from_path temp_pdf_path POPPLER_PATH 300 (lit "jpeg") ;;
       match images with
       | image0 :: _ => ocr image0 (lit "eng+ara")
       | [] => ret []
       end)
    (fun e => st_error (lit "Error extracting text: " ++ e) ;;; ret []).

(** Lines 78-83: the first pattern of the list with a match gives
    [found_fcr], the group of its first match. *)
Fixpoint first_match (ps : list Re.pattern) (text : str) : option str :=
  match ps with
  | [] => None
  | pattern :: ps' =>
      match Re.findall pattern text true with
      | m0 :: _ => Some m0
      | [] => first_match ps' text
      end
  end.

Definition found_fcr (text : str) : option str := first_match patterns text.

(** Lines 85-94 of the loop body, for a page whose text is not empty. *)
Definition update_ranges (total_pages page_num : Z) (found : option str)
    (st : seg_state) : seg_state :=
  let st1 :=
    if truthy_opt found && bool_decide (found ≠ current_fcr st) then
      SegState
        (match current_fcr st with
         | Some cur => dict_set cur (start_page st, page_num - 1) (fcr_ranges st)
         | None => fcr_ranges st
         end)
        found page_num
    else st in
  match page_num =? total_pages - 1, current_fcr st1 with
  | true, Some cur =>
      SegState (dict_set cur (start_page st1, page_num) (fcr_ranges st1))
               (current_fcr st1) (start_page st1)
  | _, _ => st1
  end.

(** One turn of the loop over the pages. *)
Definition loop_body (temp_dir : str) (total_pages page_num : Z) (page : Page)
    (st : seg_state) : M' seg_state :=
  text <- extract_text_from_page page temp_dir ;;
  if negb (truthy text) then ret st            (* continue *)
  else ret (update_ranges total_pages page_num (found_fcr text) st).

(** [for page_num in range(total_pages): page = reader.pages[page_num]; ...]
    over the pages that remain, [page_num] being the index of the first. *)
Fixpoint loop (temp_dir : str) (total_pages page_num : Z) (pages : list Page)
    (st : seg_state) : M' seg_state :=
  match pages with
  | [] => ret st
  | page :: pages' =>
      st' <- loop_body temp_dir total_pages page_num page st ;;
      loop temp_dir total_pages (page_num + 1) pages' st'
  end.

(** [reader_pages] is [PdfReader(file).pages] for the file at [pdf_path]. *)
Definition find_fcr_ranges (reader_pages : list Page) (temp_dir : str) : M' dict :=
  let total_pages := Z.of_nat (length reader_pages) in
  st <- loop temp_dir total_pages 0 reader_pages (SegState [] None 0) ;;
  ret (fcr_ranges st).

(** [reader.pages[i]]: a negative index counts from the end, an index out
    of range raises [IndexError]. *)
Definition pages_getitem (pages : list Page) (i : Z) : result Page :=
  let n := Z.of_nat (length pages) in
  let j := if i <? 0 then n + i else i in
  if (j <? 0) || (n <=? j) then Raise (lit "sequence index out of range")
  else match pages !! Z.to_nat j with
       | Some page => Ok page
       | None => Raise (lit "sequence index out of range")
       end.

(** [range(start, stop)] *)
Definition range (start stop : Z) : list Z := seqZ start (stop - start).

(** [for page_num in ...: writer.add_page(reader.pages[page_num])]: the
    pages of the writer, or the first exception. *)
Fixpoint add_pages (pages : list Page) (nums : list Z) (writer : list Page)
    : result (list Page) :=
  match nums with
  | [] => Ok writer
  | page_num :: nums' =>
      match pages_getitem pages page_num with
      | Ok page => add_pages pages nums' (writer ++ [page])
      | Raise e => Raise e
      end
  end.

(** The file name of an identifier (lines 107 and 119). *)
Definition clean_fcr_num (fcr_num : str) : str :=
  Re.sub unsafe_char (lit "_") fcr_num.

Definition filename (fcr_num : str) : str :=
  lit "FCR_" ++ clean_fcr_num fcr_num ++ lit ".pdf".

(** The loop of [split_pdf_by_fcr_ranges] over [fcr_ranges.items()]. *)
Fixpoint split_loop (reader_pages : list Page) (items : dict) (output_dir : str)
    (output_files : list (str * str)) : M' (list (str * str)) :=
  match items with
  | [] => ret output_files
  | (fcr_num, (start, end_)) :: items' =>
      let output_path := path_join output_dir (filename fcr_num) in
      writer <- lift (add_pages reader_pages (range start (end_ + 1)) []) ;;
      write_pdf output_path writer ;;;
      split_loop reader_pages items' output_dir
        (output_files ++ [(filename fcr_num, output_path)])
  end.

Definition split_pdf_by_fcr_ranges (reader_pages : list Page) (fcr_ranges : dict)
    (output_dir : str) : M' (list (str * str)) :=
  split_loop reader_pages fcr_ranges output_dir [].

(** [create_zip]: the archive as the list of its entries, each the name
    and the content of the file that was added under it. *)
Fixpoint zip_entries (output_files : list (str * str))
    : M' (list (str * list Page)) :=
  match output_files with
  | [] => ret []
  | (filename, filepath) :: rest =>
      doc <- (fun w => match disk w !! filepath with
                       | Some doc => (Ok doc, w)
                       | None => (Raise (lit "No such file or directory"), w)
                       end) ;;
      entries <- zip_entries rest ;;
      ret ((filename, doc) :: entries)
  end.

Definition create_zip (output_files : list (str * str))
    : M' (list (str * list Page)) :=
  zip_entries output_files.

End Functions.

(** ** Notions of the specification *)

Section Notions.
Context `{UnicodeData} {Page Image : Type} `{!Collaborators Page Image}.

(** The text of a page as the specification describes it: the embedded
    text when it is not blank, otherwise the recognised text of the first
    image of the page, and the empty string when a step fails or there is
    no image. *)
Definition page_text (page : Page) (temp_dir : str) : str :=
  match page_extract_text page with
  | Raise _ => []
  | Ok text =>
      if truthy text && truthy (Uni.strip text) then text
      else
        let temp_pdf_path := path_join temp_dir (lit "temp_page.pdf") in
        match pdf_write_error temp_pdf_path [page] with
        | Some _ => []
        | None =>
            match rasterize [page] POPPLER_PATH 300 (lit "jpeg") with
            | Ok (image0 :: _) =>
                match image_to_string image0 (lit "eng+ara") with
                | Ok recognised => recognised
                | Raise _ => []
                end
            | Ok [] => []
            | Raise _ => []
            end
        end
  end.

(** The identifier observed on a page with the text [text], if any. *)
Definition detect (text : str) : option str :=
  if truthy text then
    match found_fcr text with
    | Some fcr => if truthy fcr then Some fcr else None
    | None => None
    end
  else None.

(** The index of the first page on which an identifier is observed. *)
Fixpoint first_detection (page_num : Z) (texts : list str) : option Z :=
  match texts with
  | [] => None
  | text :: texts' =>
      match detect text with
      | Some _ => Some page_num
      | None => first_detection (page_num + 1) texts'
      end
  end.

(** The loop of [find_fcr_ranges] over the texts of the pages. *)
Definition step (total_pages page_num : Z) (text : str) (st : seg_state) : seg_state :=
  if negb (truthy text) then st
  else update_ranges total_pages page_num (found_fcr text) st.

Fixpoint steps (total_pages page_num : Z) (texts : list str) (st : seg_state)
    : seg_state :=
  match texts with
  | [] => st
  | text :: texts' =>
      steps total_pages (page_num + 1) texts' (step total_pages page_num text st)
  end.

(** The range map of a document, given the texts of its pages. *)
Definition segment (texts : list str) : dict :=
  fcr_ranges (steps (Z.of_nat (length texts)) 0 texts (SegState [] None 0)).

(** The value a computation returns from the world [w], if it returns. *)
Definition returned {A} (m : M Page Image A) (w : world Page Image) : option A :=
  match m w with
  | (Ok a, _) => Some a
  | (Raise _, _) => None
  end.

(** The world a computation leaves. *)
Definition after {A} (m : M Page Image A) (w : world Page Image) : world Page Image :=
  snd (m w).

(** The documents written, in order, and the journal entries of a kind. *)
Definition written (evs : list (event Page Image)) : list (str * list Page) :=
  flat_map (fun ev => match ev with Wrote path doc => [(path, doc)] | _ => [] end) evs.

Definition is_ocr_event (ev : event Page Image) : bool :=
  match ev with
  | Rasterized _ _ _ _ | Recognized _ _ => true
  | _ => false
  end.

(** The pages [start..end_] of a document, both ends included. *)
Definition slice (pages : list Page) (start end_ : Z) : list Page :=
  take (Z.to_nat (end_ + 1 - start)) (drop (Z.to_nat start) pages).

End Notions.

(** Whether page [p] lies in one of the ranges of the map. *)
Definition in_range (r : Z * Z) (p : Z) : bool := (r.1 <=? p) && (p <=? r.2).

Definition covers (d : dict) (p : Z) : bool :=
  existsb (fun kv => in_range kv.2 p) d.

(** The value of a key of the dictionary. *)
Fixpoint dict_get (k : str) (d : dict) : option (Z * Z) :=
  match d with
  | [] => None
  | (k', v) :: r => if decide (k' = k) then Some v else dict_get k r
  end.

(** Well-formed range maps below a bound: one entry per identifier, every
    range inside [0, bound) with its start not after its end, and the
    ranges of two identifiers apart. *)
Definition ranges_wf (bound : Z) (d : dict) : Prop :=
  NoDup d.*1
  /\ (forall k s e, (k, (s, e)) ∈ d -> 0 <= s <= e /\ e < bound)
  /\ (forall k1 r1 k2 r2, (k1, r1) ∈ d -> (k2, r2) ∈ d -> k1 ≠ k2 ->
        r1.2 < r2.1 \/ r2.2 < r1.1).

(** The invariant of the loop before page [n]: the open range starts on
    an earlier page, and the ranges emitted so far end before it. *)
Definition seg_inv (n : Z) (st : seg_state) : Prop :=
  match current_fcr st with
  | None => fcr_ranges st = []
  | Some _ => 0 <= start_page st < n /\ ranges_wf (start_page st) (fcr_ranges st)
  end.

(** Lines 86-90: the state after the test for a new identifier. *)
Definition transition (page_num : Z) (found : option str) (st : seg_state)
    : seg_state :=
  if truthy_opt found && bool_decide (found ≠ current_fcr st) then
    SegState
      (match current_fcr st with
       | Some cur => dict_set cur (start_page st, page_num - 1) (fcr_ranges st)
       | None => fcr_ranges st
       end)
      found page_num
  else st.

(** The identifier observed on the page with index [i]. *)
Definition detected `{UnicodeData} (texts : list str) (i : nat) : option str :=
  texts !! i ≫= detect.




(** The failures of the steps of [extract_text_from_page]: the direct
    extraction, the writing of the single-page file, the rasterisation and
    the recognition, each reached only when the steps before it succeeded. *)
Inductive raises `{Collaborators Page Image} (page : Page) (temp_dir : str)
    : str -> Prop :=
| raises_extract e :
    page_extract_text page = Raise e -> raises page temp_dir e
| raises_write text e :
    page_extract_text page = Ok text -> truthy (Uni.strip text) = false ->
    pdf_write_error (path_join temp_dir (lit "temp_page.pdf")) [page] = Some e ->
    raises page temp_dir e
| raises_rasterize text e :
    page_extract_text page = Ok text -> truthy (Uni.strip text) = false ->
    pdf_write_error (path_join temp_dir (lit "temp_page.pdf")) [page] = None ->
    rasterize [page] POPPLER_PATH 300 (lit "jpeg") = Raise e ->
    raises page temp_dir e
| raises_ocr text image0 images e :
    page_extract_text page = Ok text -> truthy (Uni.strip text) = false ->
    pdf_write_error (path_join temp_dir (lit "temp_page.pdf")) [page] = None ->
    rasterize [page] POPPLER_PATH 300 (lit "jpeg") = Ok (image0 :: images) ->
    image_to_string image0 (lit "eng+ara") = Raise e ->
    raises page temp_dir e.

(** The safe set of the specification: word characters, hyphen,
    underscore, period and space. *)
Definition safe `{UnicodeData} (c : N) : bool :=
  (Uni.isword c || (c =? 0x2D) || (c =? 0x5F) || (c =? 0x2E) || (c =? 0x20))%N.

(** What it means for a pattern to match a text, without reference to the
    matcher: the text splits into one run of characters per quantified
    atom, each run within the bounds of its quantifier. *)
Inductive accepts `{UnicodeData} (ic : bool) : Re.pattern -> str -> Prop :=
| accepts_nil : accepts ic [] []
| accepts_open p s : accepts ic p s -> accepts ic (Re.GroupOpen :: p) s
| accepts_close p s : accepts ic p s -> accepts ic (Re.GroupClose :: p) s
| accepts_rep a lo hi p u s :
    Forall (fun c => Re.atom_matches ic a c = true) u ->
    (lo <= length u)%nat ->
    (forall h, hi = Some h -> (length u <= h)%nat) ->
    accepts ic p s ->
    accepts ic (Re.Rep a lo hi :: p) (u ++ s).

(** The pattern matches somewhere in the text. *)
Definition occurs `{UnicodeData} (ic : bool) (p : Re.pattern) (text : str) : Prop :=
  exists pre s post, text = pre ++ s ++ post /\ accepts ic p s.

(** Notions for [split_pdf_by_fcr_ranges]. *)
Section SplitNotions.
Context `{UnicodeData} {Page Image : Type} `{!Collaborators Page Image}.

Definition output_path (output_dir fcr_num : str) : str :=
  path_join output_dir (filename fcr_num).

(** The pair that is returned for an entry of the map, and the document
    that is written for it. *)
Definition output_file (output_dir : str) (kv : str * (Z * Z)) : str * str :=
  (filename kv.1, output_path output_dir kv.1).

Definition output_doc (pages : list Page) (kv : str * (Z * Z)) : list Page :=
  slice pages kv.2.1 kv.2.2.

(** The disk after a sequence of writes. *)
Definition write_all (files : gmap str (list Page)) (writes : list (str * list Page))
    : gmap str (list Page) :=
  foldl (fun files pd => <[pd.1 := pd.2]> files) files writes.

(** Every range of the map lies inside the document. *)
Definition in_bounds (pages : list Page) (d : dict) : Prop :=
  forall k s e, (k, (s, e)) ∈ d -> 0 <= s /\ e < Z.of_nat (length pages).

(** No write of an output file fails. *)
Definition writes_succeed (pages : list Page) (d : dict) (output_dir : str) : Prop :=
  forall k s e, (k, (s, e)) ∈ d ->
    pdf_write_error (output_path output_dir k) (slice pages s e) = None.


End SplitNotions.


(** The entries of a map in range order: by the start of their ranges. *)
Definition by_start (a b : str * (Z * Z)) : Prop := a.2.1 <= b.2.1.

#[global] Instance by_start_dec : RelDecision by_start :=
  fun a b => decide (a.2.1 <= b.2.1).

(** ** Stub collaborators

    A page of the stub is given by the outcome of each library call on it;
    an image is given by the outcome of recognising it. *)

Record stub_page := StubPage {
  embedded : result str;
  writable : bool;
  images : result (list (result str))
}.

Fixpoint stub_rasterize (doc : list stub_page) : result (list (result str)) :=
  match doc with
  | [] => Ok []
  | page :: doc' =>
      match images page, stub_rasterize doc' with
      | Ok imgs, Ok imgs' => Ok (imgs ++ imgs')
      | Raise e, _ => Raise e
      | _, Raise e => Raise e
      end
  end.

Definition stub : Collaborators stub_page (result str) := {|
  page_extract_text page := embedded page;
  pdf_write_error path doc :=
    if forallb writable doc then None else Some (lit "Permission denied");
  rasterize doc _ _ _ := stub_rasterize doc;
  image_to_string image _ := image;
  path_join dir name := dir ++ lit "/" ++ name
|}.

(** A digital page with an embedded text, and a scanned page whose only
    image is recognised as a text. *)
Definition digital (text : string) : stub_page :=
  StubPage (Ok (lit text)) true (Ok []).
Definition scanned (text : string) : stub_page :=
  StubPage (Ok []) true (Ok [Ok (lit text)]).

(** A blank scanned page: no embedded text, and nothing is recognised. *)
Definition blank : stub_page := StubPage (Ok []) true (Ok [Ok []]).

(** A fragment of the character database, for the examples: the
    Arabic-Indic digits, and the Arabic letters beside them. *)
Definition arabic_fragment : UnicodeData := {|
  decimal_beyond_ascii c := Uni.in_range 0x660 0x669 c;
  alnum_beyond_ascii c := Uni.in_range 0x660 0x669 c || Uni.in_range 0x620 0x64A c
|}.

Definition empty_world : world stub_page (result str) := World ∅ [].

(** ** What the loop guarantees for the entries of the map *)

(** An entry holds a range that starts on a page showing its identifier,
    whose pages show no other identifier, and that ends on the last page
    of the document or just before a page showing another identifier. *)
Definition entry_ok (det : nat -> option str) (total : nat) (kv : str * (Z * Z))
    : Prop :=
  exists s e : nat,
    kv.2 = (Z.of_nat s, Z.of_nat e) /\ (s <= e < total)%nat
    /\ det s = Some kv.1
    /\ (forall i, (s <= i <= e)%nat -> det i = None \/ det i = Some kv.1)
    /\ (S e = total \/ exists k', det (S e) = Some k' /\ k' ≠ kv.1).

(** The invariant before page [n]: the entries are as above, and the open
    range started on a page showing its identifier, the only one observed
    since. *)
Definition purity_inv (det : nat -> option str) (total n : nat) (st : seg_state)
    : Prop :=
  NoDup (fcr_ranges st).*1
  /\ (forall kv, kv ∈ fcr_ranges st -> entry_ok det total kv)
  /\ match current_fcr st with
     | None => fcr_ranges st = [] /\ forall i, (i < n)%nat -> det i = None
     | Some c =>
         exists start : nat,
           start_page st = Z.of_nat start /\ (start < n)%nat /\ det start = Some c
           /\ forall i, (start < i < n)%nat -> det i = None \/ det i = Some c
     end.


(** The diagnostics on the error channel, in order. *)
Definition diagnostics {Page Image : Type} (evs : list (event Page Image)) : list str :=
  flat_map (fun ev => match ev with StError message => [message] | _ => [] end) evs.

(** A character that is not whitespace. *)
Definition visible (c : N) : bool := negb (Uni.isspace c).

(** The world after the splitter has written the documents of the
    entries [d]. *)
Definition split_world `{UnicodeData} {Page Image : Type} `{!Collaborators Page Image}
    (pages : list Page) (d : dict) (output_dir : str) (w : world Page Image)
    : world Page Image :=
  World (write_all (disk w)
           ((fun kv => (output_path output_dir kv.1, output_doc pages kv)) <$> d))
        (journal w ++
           ((fun kv => Wrote (output_path output_dir kv.1) (output_doc pages kv)) <$> d)).

(** ** The shape of an identifier *)

(** The characters that [[A-Z0-9]] matches under [IGNORECASE]: the ASCII
    letters and digits and the four code points that fold to i, s and k. *)
Definition is_id_char (c : N) : bool :=
  (Uni.is_ascii_digit c || Uni.is_ascii_upper c || Uni.is_ascii_lower c
   || (c =? 0x130) || (c =? 0x131) || (c =? 0x17F) || (c =? 0x212A))%N.

(** The characters of the class [[\(\d+\)]]. *)
Definition is_trailer_char `{UnicodeData} (c : N) : bool :=
  ((c =? 0x28) || Uni.isdecimal c || (c =? 0x2B) || (c =? 0x29))%N.

Definition is_rep (n : Re.node) : bool :=
  match n with Re.Rep _ _ _ => true | _ => false end.

(** ** The processing part of [main] *)

Section Main.
Context `{UnicodeData} {Page Image : Type} `{!Collaborators Page Image}.

(** [open(path, 'rb')] followed by [PdfReader(file)]: the pages of the
    file at [path]. *)
Definition read_pdf (path : str) : M Page Image (list Page) :=
  fun w => match disk w !! path with
           | Some doc => (Ok doc, w)
           | None => (Raise (lit "No such file or directory"), w)
           end.

(** Lines 139-157 of [main], for an upload with the pages [uploaded] and
    the temporary directory [temp_dir]: the upload is saved as
    [input.pdf], the ranges are found, and either the error of line 149
    is reported and [main] returns (the result is [None]), or the document
    is split and archived.  The result then holds [fcr_ranges],
    [output_files] and the entries of the archive. *)
Definition main_processing (uploaded : list Page) (temp_dir : str)
    : M Page Image (option (dict * list (str * str) * list (str * list Page))) :=
  let input_pdf_path := path_join temp_dir (lit "input.pdf") in
  write_pdf input_pdf_path uploaded ;;;
  reader_pages <- read_pdf input_pdf_path ;;
  fcr_ranges <- find_fcr_ranges reader_pages temp_dir ;;
  match fcr_ranges with
  | [] => st_error (lit "No FCR numbers found in the document") ;;; ret None
  | _ :: _ =>
      reader_pages' <- read_pdf input_pdf_path ;;
      output_files <- split_pdf_by_fcr_ranges reader_pages' fcr_ranges temp_dir ;;
      archive <- create_zip output_files ;;
      ret (Some (fcr_ranges, output_files, archive))
  end.

End Main.

(** * Properties *)

(** ** Text extraction *)

Section ExtractionFacts.
Context `{UnicodeData} {Page Image : Type} `{!Collaborators Page Image}.
Implicit Types (page : Page) (w : world Page Image) (temp_dir text : str).

Ltac run_monad :=
  unfold extract_text_from_page, write_pdf, convert_from_path, ocr, st_error,
    log, try_except, lift, ret, bind; simpl.

Lemma strip_truthy text : truthy (Uni.strip text) = true -> truthy text = true.
Proof. by destruct text. Qed.

(** The function always returns, and what it returns is [page_text]. *)
Lemma extract_text_from_page_spec page temp_dir w :
  exists w', extract_text_from_page page temp_dir w = (Ok (page_text page temp_dir), w').
Proof.
  unfold page_text. run_monad.
  destruct (page_extract_text page) as [text|e]; [|eauto].
  destruct (truthy text && truthy (Uni.strip text)); [eauto|].
  destruct (pdf_write_error _ _); simpl; [eauto|].
  rewrite lookup_insert_eq.
  destruct (rasterize _ _ _ _) as [[|image0 imgs]|e]; simpl; eauto.
  destruct (image_to_string _ _); eauto.
Qed.

Lemma extract_text_from_page_returned page temp_dir w :
  returned (extract_text_from_page page temp_dir) w = Some (page_text page temp_dir).
Proof.
  unfold returned.
  by destruct (extract_text_from_page_spec page temp_dir w) as [w' ->].
Qed.

(** The loop over the pages is the loop over their texts. *)
Lemma loop_steps temp_dir total_pages pages : forall page_num st w,
  exists w', loop temp_dir total_pages page_num pages st w
    = (Ok (steps total_pages page_num ((fun page => page_text page temp_dir) <$> pages) st), w').
Proof.
  induction pages as [|page pages IH]; intros page_num st w; simpl.
  - by exists w.
  - unfold bind at 1, loop_body, bind at 1.
    destruct (extract_text_from_page_spec page temp_dir w) as [w1 ->].
    unfold step. destruct (negb (truthy (page_text page temp_dir))); apply IH.
Qed.

Lemma find_fcr_ranges_segment pages temp_dir w :
  returned (find_fcr_ranges pages temp_dir) w
  = Some (segment ((fun page => page_text page temp_dir) <$> pages)).
Proof.
  unfold returned, find_fcr_ranges, bind, segment.
  destruct (loop_steps temp_dir (Z.of_nat (length pages)) pages 0 (SegState [] None 0) w)
    as [w' ->].
  by rewrite length_fmap.
Qed.

End ExtractionFacts.


(** ** The dictionary *)

Section DictFacts.
Implicit Types (k : str) (v : Z * Z) (d : dict).

Lemma dict_set_keys k v d :
  (dict_set k v d).*1 = if decide (k ∈ d.*1) then d.*1 else d.*1 ++ [k].
Proof.
  induction d as [|[k' v'] d IH]; [done|].
  cbn [dict_set]. destruct (decide (k' = k)) as [->|Hne]; csimpl.
  - rewrite decide_True; [done|left].
  - rewrite IH. destruct (decide (k ∈ d.*1)) as [Hin|Hnin].
    + rewrite decide_True; [done|by right].
    + rewrite decide_False; [done|]. rewrite elem_of_cons. by intros [?|?].
Qed.

Lemma dict_set_NoDup k v d : NoDup d.*1 -> NoDup (dict_set k v d).*1.
Proof.
  intros Hd. rewrite dict_set_keys. case_decide; [done|].
  apply NoDup_app. split_and!; [done| |apply NoDup_singleton].
  intros x Hx Hx'%list_elem_of_singleton. by subst.
Qed.

Lemma dict_set_elem_of k v d k' v' :
  NoDup d.*1 ->
  (k', v') ∈ dict_set k v d -> (k' = k /\ v' = v) \/ ((k', v') ∈ d /\ k' ≠ k).
Proof.
  induction d as [|[k0 v0] d IH]; cbn [dict_set]; csimpl.
  - intros _ ?%list_elem_of_singleton. left. by simplify_eq.
  - intros [Hk0 Hd]%NoDup_cons.
    destruct (decide (k0 = k)) as [->|Hne]; rewrite !elem_of_cons.
    + intros [?|Hin]; [left; by simplify_eq|].
      right. split; [by right|]. intros ->. apply Hk0.
      apply list_elem_of_fmap. by exists (k, v').
    + intros [?|Hin]; [right; simplify_eq; auto|].
      destruct (IH Hd Hin) as [?|[? ?]]; auto.
Qed.

Lemma dict_set_elem_of_new k v d : (k, v) ∈ dict_set k v d.
Proof.
  induction d as [|[k0 v0] d IH]; cbn [dict_set]; [left|].
  destruct (decide (k0 = k)); [left|by right].
Qed.

Lemma dict_set_elem_of_old k v d k' v' :
  (k', v') ∈ d -> k' ≠ k -> (k', v') ∈ dict_set k v d.
Proof.
  induction d as [|[k0 v0] d IH]; cbn [dict_set]; [by intros ?%elem_of_nil|].
  intros [?|Hin]%elem_of_cons Hne; simplify_eq.
  - rewrite decide_False; [left|done].
  - destruct (decide (k0 = k)); right; auto.
Qed.


Lemma dict_get_elem_of k v d : NoDup d.*1 -> (k, v) ∈ d -> dict_get k d = Some v.
Proof.
  induction d as [|[k0 v0] d IH]; csimpl; [by intros _ ?%elem_of_nil|].
  intros [Hk0 Hd]%NoDup_cons [?|Hin]%elem_of_cons; simplify_eq.
  - by rewrite decide_True.
  - rewrite decide_False; [auto|]. intros ->. apply Hk0.
    apply list_elem_of_fmap. by exists (k, v).
Qed.

Lemma covers_elem_of d p :
  covers d p = true <-> exists k s e, (k, (s, e)) ∈ d /\ s <= p <= e.
Proof.
  unfold covers, in_range. rewrite existsb_exists. split.
  - intros [[k [s e]] [Hin Hp]]. exists k, s, e. simpl in Hp.
    split; [by apply list_elem_of_In|lia].
  - intros (k & s & e & Hin & Hp). exists (k, (s, e)). simpl.
    split; [by apply list_elem_of_In|lia].
Qed.

End DictFacts.

(** ** The ranges are well formed *)

Section SegmentFacts.
Context `{UnicodeData}.
Implicit Types (st : seg_state) (d : dict) (text : str) (found : option str).

Lemma ranges_wf_nil bound : ranges_wf bound [].
Proof.
  split_and!; [constructor| |]; intros *; by intros ?%elem_of_nil.
Qed.

Lemma ranges_wf_mono bound bound' d :
  bound <= bound' -> ranges_wf bound d -> ranges_wf bound' d.
Proof.
  intros Hle (Hnd & Hin & Hdisj). split_and!; [done| |done].
  intros k s e Hk. specialize (Hin k s e Hk). lia.
Qed.

(** Closing the open range [(s, e)], which starts after the end of every
    range of the map, keeps the map well formed. *)
Lemma ranges_wf_set bound k s e d :
  ranges_wf s d -> 0 <= s <= e -> e < bound -> ranges_wf bound (dict_set k (s, e) d).
Proof.
  intros (Hnd & Hin & Hdisj) Hse He. split_and!.
  - by apply dict_set_NoDup.
  - intros k' s' e' Hk'.
    apply dict_set_elem_of in Hk' as [[-> [= -> ->]]|[Hk' _]]; [lia| |done].
    specialize (Hin k' s' e' Hk'). lia.
  - intros k1 [s1 e1] k2 [s2 e2] H1 H2 Hne. simpl.
    apply dict_set_elem_of in H1 as [[-> [= -> ->]]|[H1 _]]; [| |done];
      apply dict_set_elem_of in H2 as [[-> [= -> ->]]|[H2 _]]; try done.
    + specialize (Hin _ _ _ H2). lia.
    + specialize (Hin _ _ _ H1). lia.
    + apply (Hdisj _ _ _ _ H1 H2 Hne).
Qed.

Lemma transition_inv n found st :
  0 <= n -> seg_inv n st -> seg_inv (n + 1) (transition n found st).
Proof.
  intros Hn Hinv. unfold transition.
  destruct (truthy_opt found && bool_decide (found ≠ current_fcr st)) eqn:Hnew.
  - apply andb_true_iff in Hnew as [Hfound _].
    destruct found as [fcr|]; [|done]. unfold seg_inv in *. simpl.
    split; [lia|].
    destruct (current_fcr st) as [cur|].
    + destruct Hinv as [Hstart Hwf]. apply ranges_wf_set; [done|lia..].
    + rewrite Hinv. apply ranges_wf_nil.
  - unfold seg_inv in *. destruct (current_fcr st); [|done].
    destruct Hinv. split; [lia|done].
Qed.

Lemma update_ranges_transition total_pages n found st :
  update_ranges total_pages n found st =
  let st1 := transition n found st in
  match n =? total_pages - 1, current_fcr st1 with
  | true, Some cur =>
      SegState (dict_set cur (start_page st1, n) (fcr_ranges st1))
               (current_fcr st1) (start_page st1)
  | _, _ => st1
  end.
Proof. reflexivity. Qed.

(** A page that is not the last keeps the invariant. *)
Lemma step_inv total_pages n text st :
  0 <= n -> n ≠ total_pages - 1 -> seg_inv n st ->
  seg_inv (n + 1) (step total_pages n text st).
Proof.
  intros Hn Hlast Hinv. unfold step.
  destruct (negb (truthy text)).
  - unfold seg_inv in *. destruct (current_fcr st); [|done].
    destruct Hinv. split; [lia|done].
  - rewrite update_ranges_transition. simpl.
    apply Z.eqb_neq in Hlast. rewrite Hlast.
    by apply transition_inv.
Qed.

(** After the last page the map is well formed. *)
Lemma step_last total_pages text st :
  0 <= total_pages - 1 -> seg_inv (total_pages - 1) st ->
  ranges_wf total_pages (fcr_ranges (step total_pages (total_pages - 1) text st)).
Proof.
  intros Hn Hinv. unfold step.
  assert (Hkeep : forall n st', seg_inv n st' -> n <= total_pages ->
            ranges_wf total_pages (fcr_ranges st')).
  { intros n st' Hst' Hle. unfold seg_inv in Hst'.
    destruct (current_fcr st'); [|rewrite Hst'; apply ranges_wf_nil].
    destruct Hst' as [? Hwf]. apply (ranges_wf_mono (start_page st')); [lia|done]. }
  destruct (negb (truthy text)); [apply (Hkeep (total_pages - 1)); [done|lia]|].
  rewrite update_ranges_transition. simpl. rewrite Z.eqb_refl.
  pose proof (transition_inv _ (found_fcr text) _ Hn Hinv) as Hinv1.
  destruct (current_fcr (transition _ _ st)) as [cur|] eqn:Hcur.
  - simpl. unfold seg_inv in Hinv1. rewrite Hcur in Hinv1.
    destruct Hinv1 as [? Hwf]. apply ranges_wf_set; [done|lia..].
  - apply (Hkeep _ _ Hinv1). lia.
Qed.

Lemma steps_wf total_pages texts : forall n st,
  0 <= n -> n + Z.of_nat (length texts) = total_pages -> seg_inv n st ->
  ranges_wf total_pages (fcr_ranges (steps total_pages n texts st)).
Proof.
  induction texts as [|text texts IH]; intros n st Hn Hlen Hinv; simpl in *.
  - unfold seg_inv in Hinv.
    destruct (current_fcr st); [|rewrite Hinv; apply ranges_wf_nil].
    destruct Hinv as [? Hwf]. apply (ranges_wf_mono (start_page st)); [lia|done].
  - destruct texts as [|text' texts].
    + simpl in *. replace n with (total_pages - 1) in * by lia.
      by apply step_last.
    + apply IH; [lia|simpl in *; lia|].
      apply step_inv; [done|simpl in *; lia|done].
Qed.

Lemma segment_wf texts : ranges_wf (Z.of_nat (length texts)) (segment texts).
Proof. apply steps_wf; [lia|lia|done]. Qed.

End SegmentFacts.

(** ** Pages from the first observation on are covered *)

Section CoverFacts.
Context `{UnicodeData}.
Implicit Types (st : seg_state) (d : dict) (text : str) (det : nat -> option str).

Lemma steps_app total_pages l1 l2 : forall n st,
  steps total_pages n (l1 ++ l2) st
  = steps total_pages (n + Z.of_nat (length l1)) l2 (steps total_pages n l1 st).
Proof.
  induction l1 as [|text l1 IH]; intros n st; simpl.
  - by rewrite Z.add_0_r.
  - rewrite IH. f_equal. lia.
Qed.

Lemma detect_truthy text fcr : detect text = Some fcr -> truthy fcr = true.
Proof.
  unfold detect. destruct (truthy text); [|done].
  destruct (found_fcr text) as [fcr'|]; [|done].
  destruct (truthy fcr') eqn:?; [|done]. by intros [= <-].
Qed.

Lemma detect_blank text : truthy text = false -> detect text = None.
Proof. unfold detect. by intros ->. Qed.

(** On a page with a text, the loop body sees the observed identifier. *)
Lemma transition_detect n text st :
  truthy text = true ->
  transition n (found_fcr text) st = transition n (detect text) st.
Proof.
  intros Htext. unfold detect, transition. rewrite Htext.
  destruct (found_fcr text) as [fcr|]; [|done].
  destruct (truthy fcr) eqn:Hfcr; simpl; by rewrite ?Hfcr.
Qed.

Lemma transition_same n c st :
  current_fcr st = Some c -> transition n (Some c) st = st.
Proof.
  intros Hc. unfold transition. rewrite Hc.
  rewrite bool_decide_false; [|by intros ?]. by rewrite andb_false_r.
Qed.

Lemma transition_none n st : transition n None st = st.
Proof. done. Qed.

Lemma transition_new n fcr st :
  truthy fcr = true -> current_fcr st ≠ Some fcr ->
  transition n (Some fcr) st =
  SegState
    (match current_fcr st with
     | Some cur => dict_set cur (start_page st, n - 1) (fcr_ranges st)
     | None => fcr_ranges st
     end) (Some fcr) n.
Proof.
  intros Hfcr Hne. unfold transition. simpl. rewrite Hfcr.
  rewrite bool_decide_true; [done|]. by intros ?.
Qed.




(** The loop body in terms of the observation of the page. *)
Lemma step_transition total_pages (n : nat) texts text st :
  texts !! n = Some text -> (truthy text = false -> Z.of_nat n ≠ total_pages - 1) ->
  step total_pages (Z.of_nat n) text st =
  let st1 := transition (Z.of_nat n) (detected texts n) st in
  match Z.of_nat n =? total_pages - 1, current_fcr st1 with
  | true, Some cur =>
      SegState (dict_set cur (start_page st1, Z.of_nat n) (fcr_ranges st1))
               (current_fcr st1) (start_page st1)
  | _, _ => st1
  end.
Proof.
  intros Hn Hlast. unfold detected, step. rewrite Hn. simpl.
  destruct (truthy text) eqn:Htext; simpl.
  - by rewrite update_ranges_transition, transition_detect.
  - rewrite detect_blank, transition_none; [|done].
    apply Z.eqb_neq in Hlast; [|done]. by rewrite Hlast.
Qed.

Lemma detected_truthy texts n fcr : detected texts n = Some fcr -> truthy fcr = true.
Proof.
  unfold detected. destruct (texts !! n) as [text|]; [|done]. apply detect_truthy.
Qed.




(** When the last page has a text, the range that is open at the end is
    in the map and ends on the last page. *)
Lemma last_page_closes texts text c :
  truthy text = true ->
  let total_pages := Z.of_nat (length (texts ++ [text])) in
  let st := steps total_pages 0 (texts ++ [text]) (SegState [] None 0) in
  current_fcr st = Some c ->
  (c, (start_page st, total_pages - 1)) ∈ fcr_ranges st.
Proof.
  intros Htext total_pages st. subst st. rewrite steps_app. simpl.
  assert (0 + Z.of_nat (length texts) = total_pages - 1) as ->
    by (subst total_pages; rewrite length_app; simpl; lia).
  unfold step. rewrite Htext. simpl. rewrite update_ranges_transition. simpl.
  rewrite Z.eqb_refl.
  destruct (current_fcr (transition _ _ _)) as [c'|] eqn:Hc; simpl;
    rewrite ?Hc; [|done].
  intros [= ->]. apply dict_set_elem_of_new.
Qed.

End CoverFacts.

(** ** The range map of [find_fcr_ranges] *)

Section RangeClaims.
Context `{UnicodeData} {Page Image : Type} `{!Collaborators Page Image}.
Implicit Types (pages : list Page) (w : world Page Image) (temp_dir : str).

(** C2: in the map that [find_fcr_ranges] returns, every range has its
    start not after its end, and no page index lies in the ranges of two
    different identifiers. *)
Theorem find_fcr_ranges_disjoint pages temp_dir w :
  exists d, returned (find_fcr_ranges pages temp_dir) w = Some d
    /\ (forall k s e, (k, (s, e)) ∈ d -> s <= e)
    /\ (forall k1 s1 e1 k2 s2 e2 p,
          (k1, (s1, e1)) ∈ d -> (k2, (s2, e2)) ∈ d -> k1 ≠ k2 ->
          ~ (s1 <= p <= e1 /\ s2 <= p <= e2)).
Proof.
  eexists. split; [apply find_fcr_ranges_segment|].
  destruct (segment_wf ((fun page => page_text page temp_dir) <$> pages))
    as (_ & Hin & Hdisj).
  split.
  - intros k s e Hk. specialize (Hin k s e Hk). lia.
  - intros k1 s1 e1 k2 s2 e2 p H1 H2 Hne [Hp1 Hp2].
    specialize (Hdisj _ _ _ _ H1 H2 Hne). simpl in Hdisj. lia.
Qed.


(** C4: three pages that show the identifiers A, B and A give the map
    {A: (2, 2), B: (1, 1)}.  After two pages the map holds A: (0, 0); the
    second range of A replaces it, and page 0 is left in no range. *)
Theorem find_fcr_ranges_scenario_C (p0 p1 p2 : Page) temp_dir w :
  found_fcr (page_text p0 temp_dir) = Some (lit "A") ->
  found_fcr (page_text p1 temp_dir) = Some (lit "B") ->
  found_fcr (page_text p2 temp_dir) = Some (lit "A") ->
  let texts := (fun page => page_text page temp_dir) <$> [p0; p1; p2] in
  fcr_ranges (steps 3 0 (take 2 texts) (SegState [] None 0)) = [(lit "A", (0, 0))]
  /\ returned (find_fcr_ranges [p0; p1; p2] temp_dir) w
     = Some [(lit "A", (2, 2)); (lit "B", (1, 1))]
  /\ covers [(lit "A", (2, 2)); (lit "B", (1, 1))] 0 = false.
Proof.
  intros H0 H1 H2 texts.
  assert (Hempty : found_fcr [] = None) by reflexivity.
  assert (Htruthy : forall text fcr, found_fcr text = Some fcr -> truthy text = true).
  { intros [|c text] fcr Hf; [congruence|done]. }
  rewrite find_fcr_ranges_segment. unfold segment. subst texts. simpl.
  unfold step. rewrite (Htruthy _ _ H0), (Htruthy _ _ H1), (Htruthy _ _ H2).
  rewrite H0, H1, H2. done.
Qed.

End RangeClaims.

#[local] Existing Instance stub.
#[local] Existing Instance arabic_fragment.

Lemma find_fcr_ranges_scenario_C_witness :
  returned (find_fcr_ranges [digital "FCR NO A"; digital "FCR NO B"; scanned "fcr no: A"]
              (lit "tmp")) empty_world
  = Some [(lit "A", (2, 2)); (lit "B", (1, 1))].
Proof.
  apply (find_fcr_ranges_scenario_C (digital "FCR NO A") (digital "FCR NO B")
           (scanned "fcr no: A") (lit "tmp") empty_world); reflexivity.
Defined.

(** Scenarios A and B of the specification: X on pages 0 and 1, Y on pages
    2 and 4 with nothing on page 3; and two pages without an identifier. *)
Example find_fcr_ranges_scenarios_A_B :
  returned (find_fcr_ranges [digital "FCR NO X"; scanned "FCR NO: X"; digital "FCR NO Y";
                             digital "continued"; digital "FCR NO Y"] (lit "tmp"))
    empty_world = Some [(lit "X", (0, 1)); (lit "Y", (2, 4))]
  /\ returned (find_fcr_ranges [digital "first"; blank] (lit "tmp")) empty_world
     = Some [].
Proof. split; reflexivity. Qed.

(** C1: the last page closes the open range only if the page has a text.
    Here the first page opens the range of A1 and the last page is blank:
    the range is never emitted. *)
Theorem find_fcr_ranges_blank_last_page :
  let texts := (fun page => page_text page (lit "tmp")) <$> [digital "FCR NO A1"; blank] in
  current_fcr (steps 2 0 (take 1 texts) (SegState [] None 0)) = Some (lit "A1")
  /\ returned (find_fcr_ranges [digital "FCR NO A1"; blank] (lit "tmp")) empty_world
     = Some [].
Proof. split; reflexivity. Qed.


Lemma detected_beyond (texts : list str) j :
  (length texts <= j)%nat -> detected texts j = None.
Proof. intros Hj. unfold detected. by rewrite lookup_ge_None_2. Qed.


(** ** Text extraction: failures and the OCR fallback *)

Section ExtractionClaims.
Context `{UnicodeData} {Page Image : Type} `{!Collaborators Page Image}.
Implicit Types (page : Page) (w : world Page Image) (temp_dir text : str).

Ltac run_monad :=
  unfold returned, after, extract_text_from_page, write_pdf, convert_from_path,
    ocr, st_error, log, try_except, lift, ret, bind; simpl.

Lemma blank_test text :
  truthy (Uni.strip text) = false -> truthy text && truthy (Uni.strip text) = false.
Proof. intros ->. apply andb_false_r. Qed.

(** C6: [extract_text_from_page] always returns.  When the direct
    extraction, the writing of the temporary file, the rasterisation or
    the recognition raises, it returns the empty string and its last act
    is the diagnostic on the error channel.  So [find_fcr_ranges] returns
    a map whatever the pages do. *)
Theorem extract_text_from_page_never_raises page temp_dir w :
  (exists text, returned (extract_text_from_page page temp_dir) w = Some text)
  /\ (forall e, raises page temp_dir e ->
        returned (extract_text_from_page page temp_dir) w = Some []
        /\ last (journal (after (extract_text_from_page page temp_dir) w))
           = Some (StError (lit "Error extracting text: " ++ e)))
  /\ (forall pages, exists d, returned (find_fcr_ranges pages temp_dir) w = Some d).
Proof.
  split_and!.
  - eexists. apply extract_text_from_page_returned.
  - intros e [e' He|text e' He Hblank Hw|text e' He Hblank Hw Hr
              |text image0 images e' He Hblank Hw Hr Ho];
      run_monad; rewrite He; simpl; rewrite ?(blank_test _ Hblank), ?Hw; simpl;
      rewrite ?lookup_insert_eq, ?Hr; simpl; rewrite ?Ho; simpl;
      (split; [done|apply last_snoc]).
  - intros pages. eexists. apply find_fcr_ranges_segment.
Qed.

(** C7, as amended: an embedded text that is not blank is returned as it
    is and nothing else happens.  When it is blank, the page is written to
    the temporary file and rasterised at 300 DPI; if both succeed, the
    first image is recognised with [eng+ara] and the recognised text, if
    recognition succeeds, is returned; when there is no image, the empty
    string is returned and nothing is recognised. *)
Theorem extract_text_from_page_fallback page temp_dir w text :
  page_extract_text page = Ok text ->
  let m := extract_text_from_page page temp_dir in
  let temp_pdf_path := path_join temp_dir (lit "temp_page.pdf") in
  (truthy (Uni.strip text) = true -> returned m w = Some text /\ after m w = w)
  /\ (truthy (Uni.strip text) = false ->
      pdf_write_error temp_pdf_path [page] = None ->
      forall images, rasterize [page] POPPLER_PATH 300 (lit "jpeg") = Ok images ->
        match images with
        | image0 :: _ =>
            forall recognised,
              image_to_string image0 (lit "eng+ara") = Ok recognised ->
              returned m w = Some recognised
              /\ journal (after m w) = journal w ++
                   [Wrote temp_pdf_path [page];
                    Rasterized temp_pdf_path POPPLER_PATH 300 (lit "jpeg");
                    Recognized image0 (lit "eng+ara")]
        | [] =>
            returned m w = Some []
            /\ journal (after m w) = journal w ++
                 [Wrote temp_pdf_path [page];
                  Rasterized temp_pdf_path POPPLER_PATH 300 (lit "jpeg")]
        end).
Proof.
  intros He m temp_pdf_path. subst m temp_pdf_path. split.
  - intros Hstrip. run_monad. rewrite He. simpl.
    by rewrite Hstrip, (strip_truthy _ Hstrip).
  - intros Hblank Hw images Hr. run_monad. rewrite He. simpl.
    rewrite (blank_test _ Hblank), Hw. simpl. rewrite lookup_insert_eq, Hr.
    destruct images as [|image0 images]; simpl.
    + by rewrite <- !app_assoc.
    + intros recognised ->. simpl. by rewrite <- !app_assoc.
Qed.

End ExtractionClaims.

Lemma extract_text_from_page_never_raises_witness :
  returned (extract_text_from_page (StubPage (Ok (lit " ")) true (Raise (lit "poppler failed")))
              (lit "tmp")) empty_world = Some []
  /\ last (journal (after (extract_text_from_page
                             (StubPage (Ok (lit " ")) true (Raise (lit "poppler failed")))
                             (lit "tmp")) empty_world))
     = Some (StError (lit "Error extracting text: poppler failed")).
Proof.
  apply (extract_text_from_page_never_raises
           (StubPage (Ok (lit " ")) true (Raise (lit "poppler failed")))
           (lit "tmp") empty_world).
  by apply (raises_rasterize _ _ (lit " ")).
Defined.

(** C7 fails as stated: for a page whose embedded text is blank and whose
    rasterisation gives no image, nothing is recognised. *)
Lemma ocr_fallback_without_image :
  let page := StubPage (Ok (lit "   ")) true (Ok []) in
  let m := extract_text_from_page page (lit "tmp") in
  page_extract_text page = Ok (lit "   ")
  /\ Uni.strip (lit "   ") = []
  /\ returned m empty_world = Some []
  /\ journal (after m empty_world)
     = [Wrote (lit "tmp/temp_page.pdf") [page];
        Rasterized (lit "tmp/temp_page.pdf") POPPLER_PATH 300 (lit "jpeg")]
  /\ forall image lang, Recognized image lang ∉ journal (after m empty_world).
Proof.
  split_and!; try reflexivity.
  intros image lang Hin. vm_compute in Hin.
  repeat (apply elem_of_cons in Hin as [Hin|Hin]; [discriminate|]).
  by apply elem_of_nil in Hin.
Qed.

Lemma extract_text_from_page_fallback_witness :
  returned (extract_text_from_page (scanned "FCR NO 77") (lit "tmp")) empty_world
  = Some (lit "FCR NO 77").
Proof.
  pose proof (extract_text_from_page_fallback (scanned "FCR NO 77") (lit "tmp")
                empty_world [] eq_refl) as [_ Hocr].
  exact (proj1 (Hocr eq_refl eq_refl [Ok (lit "FCR NO 77")] eq_refl
                  (lit "FCR NO 77") eq_refl)).
Defined.

(** ** File names *)

Section FilenameClaims.
Context `{UnicodeData}.

(** The pattern of the sanitiser matches the characters outside the safe
    set. *)
Lemma unsafe_char_matches c :
  Re.atom_matches false
    (Re.In true [Re.CWord; Re.CChar 0x2D; Re.CChar 0x5F; Re.CChar 0x2E; Re.CChar 0x20]) c
  = negb (safe c).
Proof.
  unfold safe. simpl. rewrite orb_false_r.
  by destruct (Uni.isword c), (c =? 0x2D)%N, (c =? 0x5F)%N, (c =? 0x2E)%N, (c =? 0x20)%N.
Qed.

Lemma count_prefix_zero p (s : str) : Re.count_prefix p (Some 0%nat) s = 0%nat.
Proof. by destruct s. Qed.

(** Substitution for a pattern of one character class works character by
    character. *)
Lemma sub_one_class a repl rest : forall pos,
  Re.sub_from [Re.one a] repl rest pos 0
  = flat_map (fun c => if Re.atom_matches false a c then repl else [c]) rest.
Proof.
  unfold Re.one. induction rest as [|c rest IH]; intros pos; [done|].
  cbn [Re.sub_from Re.run Re.count_prefix flat_map].
  destruct (Re.atom_matches false a c); cbn.
  - rewrite count_prefix_zero.
    replace (pos + 1 =? pos)%nat with false by (symmetry; apply Nat.eqb_neq; lia).
    replace (pos + 1 - pos - 1)%nat with 0%nat by lia.
    by rewrite IH.
  - by rewrite IH.
Qed.

Lemma clean_fcr_num_map fcr_num :
  clean_fcr_num fcr_num = (fun c => if safe c then c else 0x5F%N) <$> fcr_num.
Proof.
  unfold clean_fcr_num, Re.sub, unsafe_char. rewrite sub_one_class.
  induction fcr_num as [|c s IH]; [done|].
  cbn [flat_map fmap list_fmap]. rewrite unsafe_char_matches, IH.
  by destruct (safe c).
Qed.

(** C8: the file name of an identifier is [FCR_], the identifier with
    every character outside the safe set replaced by an underscore, and
    [.pdf]; the identifier [AB/12(3)] gives [FCR_AB_12_3_.pdf]. *)
Theorem filename_sanitized (fcr_num : str) :
  filename fcr_num
  = lit "FCR_" ++ ((fun c => if safe c then c else 0x5F%N) <$> fcr_num) ++ lit ".pdf"
  /\ filename (lit "AB/12(3)") = lit "FCR_AB_12_3_.pdf".
Proof.
  split; [|reflexivity]. unfold filename. by rewrite clean_fcr_num_map.
Qed.

End FilenameClaims.

(** ** The matcher finds a match exactly when there is one *)

Section MatcherFacts.
Context `{UnicodeData}.
Implicit Types (p : Re.pattern) (rest subject text : str) (ic : bool).

Lemma try_down_Some {R} (k : nat -> option R) lo n r :
  Re.try_down k lo n = Some r -> exists j, (lo <= j <= n)%nat /\ k j = Some r.
Proof.
  induction n as [|n IH]; simpl.
  - destruct (0 <? lo)%nat eqn:Hlo; [done|]. apply Nat.ltb_ge in Hlo.
    destruct (k 0%nat) eqn:Hk; [|done]. intros [= <-]. exists 0%nat. split; [lia|done].
  - destruct (S n <? lo)%nat eqn:Hlo; [done|]. apply Nat.ltb_ge in Hlo.
    destruct (k (S n)) eqn:Hk.
    + intros [= <-]. exists (S n). split; [lia|done].
    + intros (j & Hj & Hkj)%IH. exists j. split; [lia|done].
Qed.

Lemma try_down_is_Some {R} (k : nat -> option R) lo n j :
  (lo <= j <= n)%nat -> is_Some (k j) -> is_Some (Re.try_down k lo n).
Proof.
  intros Hj Hk. induction n as [|n IH]; simpl.
  - assert (j = 0%nat) as -> by lia.
    replace (0 <? lo)%nat with false by (symmetry; apply Nat.ltb_ge; lia).
    destruct (k 0%nat); [done|by destruct Hk].
  - replace (S n <? lo)%nat with false by (symmetry; apply Nat.ltb_ge; lia).
    destruct (k (S n)) eqn:Hkn; [done|].
    apply IH. destruct (decide (j = S n)) as [->|]; [|lia].
    rewrite Hkn in Hk. by destruct Hk.
Qed.

(** The greedy count: the characters counted satisfy the predicate, the
    count respects the upper bound, and no admissible run is longer. *)
Lemma count_prefix_sound f hi rest :
  let n := Re.count_prefix f hi rest in
  (n <= length rest)%nat
  /\ Forall (fun c => f c = true) (take n rest)
  /\ (forall h, hi = Some h -> (n <= h)%nat).
Proof.
  revert hi. induction rest as [|c rest IH]; intros hi; simpl.
  - destruct hi as [[|h]|]; simpl; split_and!; (done || lia || (intros; lia)).
  - destruct hi as [[|h]|]; simpl.
    + split_and!; [lia|done|intros; lia].
    + destruct (f c) eqn:Hc; simpl; [|split_and!; [lia|done|intros; lia]].
      destruct (IH (Some h)) as (? & ? & Hh). split_and!; [lia|by constructor|].
      intros h' [= <-]. specialize (Hh h eq_refl). lia.
    + destruct (f c) eqn:Hc; simpl; [|split_and!; [lia|done|done]].
      destruct (IH None) as (? & ? & _). split_and!; [lia|by constructor|done].
Qed.

Lemma count_prefix_max f hi u s :
  Forall (fun c => f c = true) u -> (forall h, hi = Some h -> (length u <= h)%nat) ->
  (length u <= Re.count_prefix f hi (u ++ s))%nat.
Proof.
  revert hi. induction u as [|c u IH]; intros hi Hu Hhi; simpl; [lia|].
  apply Forall_cons in Hu as [Hc Hu]. rewrite Hc.
  destruct hi as [[|h]|]; simpl.
  - specialize (Hhi 0%nat eq_refl). simpl in Hhi. lia.
  - apply le_n_S, IH; [done|]. intros h' [= <-].
    specialize (Hhi (S h) eq_refl). simpl in Hhi. lia.
  - apply le_n_S, IH; [done|done].
Qed.

(** Soundness: a successful run consumed a prefix that the pattern
    accepts. *)
Lemma run_sound ic p : forall rest pos gopen cap e cap',
  Re.run ic p rest pos gopen cap = Some (e, cap') ->
  exists s post, rest = s ++ post /\ accepts ic p s /\ e = (pos + length s)%nat.
Proof.
  induction p as [|[a lo hi| |] p IH]; intros rest pos gopen cap e cap'; simpl.
  - intros [= <- <-]. exists [], rest. split_and!; [done|constructor|simpl; lia].
  - intros (j & Hj & Hrun)%try_down_Some.
    destruct (IH _ _ _ _ _ _ Hrun) as (s & post & Hrest & Hacc & ->).
    destruct (count_prefix_sound (Re.atom_matches ic a) hi rest) as (Hn & Hall & Hhi).
    exists (take j rest ++ s), post. split_and!.
    + by rewrite <- app_assoc, <- Hrest, take_drop.
    + constructor; [|rewrite length_take; lia| |done].
      * replace (take j rest)
          with (take j (take (Re.count_prefix (Re.atom_matches ic a) hi rest) rest))
          by (rewrite take_take; f_equal; lia).
        by apply Forall_take.
      * intros h Hh. specialize (Hhi h Hh). rewrite length_take. lia.
    + rewrite length_app, length_take. lia.
  - intros (s & post & ? & ? & ?)%IH. exists s, post. split_and!; [done|by constructor|done].
  - intros (s & post & ? & ? & ?)%IH. exists s, post. split_and!; [done|by constructor|done].
Qed.

(** Completeness: when the pattern accepts a prefix, the run succeeds. *)
Lemma run_complete ic p s : accepts ic p s -> forall post pos gopen cap,
  is_Some (Re.run ic p (s ++ post) pos gopen cap).
Proof.
  induction 1 as [|p s _ IH|p s _ IH|a lo hi p u s Hu Hlo Hhi _ IH];
    intros post pos gopen cap; simpl; [done|apply IH|apply IH|].
  apply (try_down_is_Some _ _ _ (length u)).
  - split; [done|]. rewrite <- app_assoc. by apply count_prefix_max.
  - rewrite <- app_assoc, drop_app_length. apply IH.
Qed.

Lemma run_is_Some ic p rest pos gopen cap :
  is_Some (Re.run ic p rest pos gopen cap)
  <-> exists s post, rest = s ++ post /\ accepts ic p s.
Proof.
  split.
  - intros [[e cap'] Hrun]. destruct (run_sound _ _ _ _ _ _ _ _ Hrun) as (s & post & ? & ? & _).
    by exists s, post.
  - intros (s & post & -> & Hacc). by apply run_complete.
Qed.

(** [findall] finds nothing exactly when the pattern occurs nowhere. *)
Lemma findall_from_nil ic p subject rest : forall pos,
  Re.findall_from ic p subject rest pos 0 = []
  <-> forall pre s post, rest = pre ++ s ++ post -> ~ accepts ic p s.
Proof.
  induction rest as [|c rest IH]; intros pos; simpl.
  - destruct (Re.run ic p [] pos pos None) as [[e cap]|] eqn:Hrun.
    + split; [done|]. intros Hno.
      destruct (run_sound _ _ _ _ _ _ _ _ Hrun) as (s & post & Hrest & Hacc & _).
      destruct (Hno [] s post Hrest Hacc).
    + split; [|done]. intros _ pre s post Hrest Hacc.
      symmetry in Hrest. apply app_eq_nil in Hrest as [-> [-> ->]%app_eq_nil].
      pose proof (run_complete ic p [] Hacc [] pos pos None) as [? Hsome].
      simpl in Hsome. congruence.
  - destruct (Re.run ic p (c :: rest) pos pos None) as [[e cap]|] eqn:Hrun.
    + split; [done|]. intros Hno.
      destruct (run_sound _ _ _ _ _ _ _ _ Hrun) as (s & post & Hrest & Hacc & _).
      destruct (Hno [] s post Hrest Hacc).
    + rewrite IH. split.
      * intros Hno [|c' pre] s post Hrest Hacc.
        -- simpl in Hrest. pose proof (run_complete ic p s Hacc post pos pos None) as [? Hsome].
           rewrite <- Hrest in Hsome. congruence.
        -- injection Hrest as -> Hrest. by apply (Hno pre s post).
      * intros Hno pre s post Hrest. apply (Hno (c :: pre) s post). by rewrite Hrest.
Qed.

Lemma findall_from_cons ic p subject rest : forall pos m ms,
  Re.findall_from ic p subject rest pos 0 = m :: ms ->
  exists pre s post, rest = pre ++ s ++ post /\ accepts ic p s.
Proof.
  induction rest as [|c rest IH]; intros pos m ms; simpl.
  - destruct (Re.run ic p [] pos pos None) as [[e cap]|] eqn:Hrun; [|done].
    intros _. destruct (run_sound _ _ _ _ _ _ _ _ Hrun) as (s & post & Hrest & Hacc & _).
    by exists [], s, post.
  - destruct (Re.run ic p (c :: rest) pos pos None) as [[e cap]|] eqn:Hrun.
    + intros _. destruct (run_sound _ _ _ _ _ _ _ _ Hrun) as (s & post & Hrest & Hacc & _).
      by exists [], s, post.
    + intros (pre & s & post & -> & Hacc)%IH. by exists (c :: pre), s, post.
Qed.

Lemma findall_cons ic p text m ms :
  Re.findall p text ic = m :: ms -> occurs ic p text.
Proof. apply findall_from_cons. Qed.

Lemma findall_nil ic p text :
  Re.findall p text ic = [] <-> ~ occurs ic p text.
Proof.
  unfold Re.findall, occurs. rewrite findall_from_nil. split.
  - intros Hno (pre & s & post & Htext & Hacc). by apply (Hno pre s post).
  - intros Hno pre s post Htext Hacc. apply Hno. by exists pre, s, post.
Qed.

(** The loop over the patterns: the first pattern with a match decides. *)
Lemma first_match_spec ps text fcr :
  first_match ps text = Some fcr
  <-> exists (i : nat) p, ps !! i = Some p
        /\ head (Re.findall p text true) = Some fcr
        /\ occurs true p text
        /\ forall (j : nat) p', (j < i)%nat -> ps !! j = Some p' -> ~ occurs true p' text.
Proof.
  induction ps as [|p ps IH]; simpl.
  - split; [done|]. by intros (i & p & ? & _).
  - destruct (Re.findall p text true) as [|m0 ms] eqn:Hfind.
    + rewrite IH. split.
      * intros (i & p' & Hi & Hhead & Hocc & Hearlier).
        exists (S i), p'. split_and!; [done..|].
        intros [|j] p'' Hj Hp''; simpl in Hp''.
        -- injection Hp'' as <-. by apply findall_nil.
        -- apply (Hearlier j); [lia|done].
      * intros ([|i] & p' & Hi & Hhead & Hocc & Hearlier); simpl in Hi.
        -- injection Hi as <-. by rewrite Hfind in Hhead.
        -- exists i, p'. split_and!; [done..|].
           intros j p'' Hj Hp''. apply (Hearlier (S j)); [lia|done].
    + split.
      * intros [= <-]. exists 0%nat, p. rewrite Hfind.
        split_and!; [done|done|by apply (findall_cons _ _ _ _ _ Hfind)|intros; lia].
      * intros ([|i] & p' & Hi & Hhead & Hocc & Hearlier); simpl in Hi.
        -- injection Hi as <-. rewrite Hfind in Hhead. by injection Hhead as ->.
        -- destruct (Hearlier 0%nat p); [lia|done|].
           apply (findall_cons _ _ _ _ _ Hfind).
Qed.


End MatcherFacts.

(** ** Matching does not depend on the case of the text *)

Section CaseFacts.
Context `{UnicodeData}.
Implicit Types (p : Re.pattern) (rest subject text : str) (c : N).

Ltac compare_all :=
  repeat match goal with
    | |- context [(?a <=? ?b)%N] => destruct (N.leb_spec a b); try lia
    | |- context [(?a <? ?b)%N] => destruct (N.ltb_spec a b); try lia
    | |- context [(?a =? ?b)%N] => destruct (N.eqb_spec a b); try lia
    end.
















(** The group that [findall] reports first belongs to the leftmost match:
    it is the group of the run at the first position where the pattern
    matches. *)
Lemma findall_from_head ic p subject rest : forall pos m ms,
  Re.findall_from ic p subject rest pos 0 = m :: ms ->
  exists (i e : nat) cap,
    Re.run ic p (drop i rest) (pos + i) (pos + i) None = Some (e, cap)
    /\ m = Re.group_text subject cap
    /\ forall j, (j < i)%nat ->
         ~ exists s post, drop j rest = s ++ post /\ accepts ic p s.
Proof.
  induction rest as [|c rest IH]; intros pos m ms; simpl.
  - destruct (Re.run ic p [] pos pos None) as [[e cap]|] eqn:Hrun; [|done].
    intros [= <- _]. exists 0%nat, e, cap. rewrite Nat.add_0_r.
    split_and!; [done|done|intros; lia].
  - destruct (Re.run ic p (c :: rest) pos pos None) as [[e cap]|] eqn:Hrun.
    + intros [= <- _]. exists 0%nat, e, cap. rewrite Nat.add_0_r.
      split_and!; [done|done|intros; lia].
    + intros (i & e & cap & Hi & Hm & Hleft)%IH. exists (S i), e, cap.
      replace (pos + S i)%nat with (S pos + i)%nat by lia.
      split_and!; [done|done|].
      intros [|j] Hj Hmatch.
      * apply (run_is_Some ic p (c :: rest) pos pos None) in Hmatch as [? ?].
        congruence.
      * apply (Hleft j); [lia|done].
Qed.

End CaseFacts.

(** ** The identifier of a page *)

Section MatcherClaims.
Context `{UnicodeData}.


(** The receipt-number label wins over an "FCR NO" label that stands
    earlier in the text; without it the "FCR NO" label decides; the Arabic
    label is tried last. *)
Example found_fcr_examples :
  found_fcr (lit "FCR NO X1 Receipt No: y2") = Some (lit "y2")
  /\ found_fcr (lit "fcr   no.X1 and FCR NO X3") = Some (lit "X1")
  /\ found_fcr ([0x631; 0x642; 0x645; 0x20; 0x627; 0x644; 0x625; 0x64A; 0x635;
                 0x627; 0x644; 0x3A; 0x20]%N ++ lit "77b") = Some (lit "77b")
  /\ found_fcr (lit "RECEIPT NO AB12(3)") = Some (lit "AB12(")
  /\ found_fcr (lit "invoice 12") = None.
Proof. repeat split; reflexivity. Qed.

End MatcherClaims.

(** ** Splitting the document *)

Section SplitFacts.
Context `{UnicodeData} {Page Image : Type} `{!Collaborators Page Image}.
Implicit Types (pages : list Page) (w : world Page Image) (d : dict)
  (output_dir : str).

Lemma pages_getitem_lookup pages i page :
  0 <= i -> pages !! Z.to_nat i = Some page -> pages_getitem pages i = Ok page.
Proof.
  intros Hi Hpage. unfold pages_getitem.
  pose proof (lookup_lt_Some _ _ _ Hpage) as Hlt.
  assert (Hneg : (i <? 0) = false) by (apply Z.ltb_ge; lia).
  assert (Hn : (Z.of_nat (length pages) <=? i) = false) by (apply Z.leb_gt; lia).
  cbv zeta. rewrite Hneg, Hneg, Hn. simpl. by rewrite Hpage.
Qed.

(** Adding the pages of a run of indices inside the document. *)
Lemma add_pages_seqZ pages (len : nat) : forall s writer,
  0 <= s -> s + Z.of_nat len <= Z.of_nat (length pages) ->
  add_pages pages (seqZ s (Z.of_nat len)) writer
  = Ok (writer ++ take len (drop (Z.to_nat s) pages)).
Proof.
  induction len as [|len IH]; intros s writer Hs Hlen.
  - simpl. by rewrite app_nil_r.
  - rewrite seqZ_cons by lia. simpl.
    destruct (lookup_lt_is_Some_2 pages (Z.to_nat s)) as [page Hpage]; [lia|].
    rewrite (pages_getitem_lookup _ _ _ Hs Hpage).
    replace (Z.pred (Z.of_nat (S len))) with (Z.of_nat len) by lia.
    rewrite IH by lia.
    rewrite (drop_S _ _ _ Hpage). simpl.
    replace (Z.to_nat (Z.succ s)) with (S (Z.to_nat s)) by lia.
    by rewrite <- app_assoc.
Qed.

Lemma add_pages_range pages s e :
  0 <= s -> e < Z.of_nat (length pages) ->
  add_pages pages (range s (e + 1)) [] = Ok (slice pages s e).
Proof.
  intros Hs He. unfold range, slice.
  destruct (decide (e + 1 - s <= 0)) as [Hle|Hgt].
  - replace (Z.to_nat (e + 1 - s)) with 0%nat by lia.
    by rewrite seqZ_nil by lia.
  - rewrite <- (Z2Nat.id (e + 1 - s)) at 1 by lia.
    by rewrite add_pages_seqZ by lia.
Qed.

(** The loop of the splitter: one pair, one write and one file per entry
    of the map, in the order of the map. *)
Lemma split_loop_spec pages output_dir d : forall output_files w,
  in_bounds pages d -> writes_succeed pages d output_dir ->
  split_loop pages d output_dir output_files w
  = (Ok (output_files ++ (output_file output_dir <$> d)),
     World (write_all (disk w)
              ((fun kv => (output_path output_dir kv.1, output_doc pages kv)) <$> d))
           (journal w ++
              ((fun kv => Wrote (output_path output_dir kv.1) (output_doc pages kv)) <$> d))).
Proof.
  induction d as [|[k [s e]] d IH]; intros output_files w Hin Hok; simpl.
  - rewrite !app_nil_r. by destruct w.
  - destruct (Hin k s e) as [Hs He]; [left|].
    unfold bind at 1, lift. rewrite (add_pages_range _ _ _ Hs He).
    unfold bind at 1, write_pdf. fold (output_path output_dir k).
    rewrite (Hok k s e) by left.
    rewrite IH.
    + simpl. unfold output_file at 2, output_doc at 3 5. simpl.
      by rewrite <- !app_assoc.
    + intros k' s' e' Hk'. apply (Hin k' s' e'). by right.
    + intros k' s' e' Hk'. apply (Hok k' s' e'). by right.
Qed.

(** The file at a path holds what was written to it last. *)
Lemma write_all_last (files : gmap str (list Page)) writes1 path doc writes2 :
  path ∉ writes2.*1 ->
  write_all files (writes1 ++ (path, doc) :: writes2) !! path = Some doc.
Proof.
  unfold write_all. rewrite foldl_app. simpl.
  generalize (foldl (fun files pd => <[pd.1:=pd.2]> files) files writes1).
  intros files'. revert files' doc.
  induction writes2 as [|[path' doc'] writes2 IH]; intros files' doc Hnotin; simpl.
  - apply lookup_insert_eq.
  - apply not_elem_of_cons in Hnotin as [Hne Hnotin]. simpl in Hne.
    rewrite (insert_insert_ne files') by done. by apply IH.
Qed.

Lemma write_all_is_Some (files : gmap str (list Page)) writes path :
  path ∈ writes.*1 -> is_Some (write_all files writes !! path).
Proof.
  revert files. induction writes as [|[path' doc'] writes IH] using rev_ind;
    intros files; [by intros ?%elem_of_nil|].
  rewrite fmap_app. intros Hin. unfold write_all. rewrite foldl_app. simpl.
  destruct (decide (path' = path)) as [->|Hne].
  - rewrite lookup_insert_eq. done.
  - rewrite lookup_insert_ne by done. apply IH.
    apply elem_of_app in Hin as [Hin|Hin%list_elem_of_singleton]; [done|].
    simpl in Hin. congruence.
Qed.

(** The archive has one entry per pair it is given, under the names of
    the pairs, as long as the files exist. *)
Lemma zip_entries_names (output_files : list (str * str)) w :
  (forall name path, (name, path) ∈ output_files -> is_Some (disk w !! path)) ->
  exists entries, create_zip output_files w = (Ok entries, w)
    /\ entries.*1 = output_files.*1.
Proof.
  unfold create_zip.
  induction output_files as [|[name path] rest IH]; intros Hfiles; simpl.
  - by exists [].
  - destruct (Hfiles name path) as [doc Hdoc]; [left|].
    destruct IH as (entries & Hzip & Hnames).
    { intros name' path' Hin. apply (Hfiles name' path'). by right. }
    exists ((name, doc) :: entries). unfold bind, ret. rewrite Hdoc, Hzip.
    split; [done|]. csimpl. by rewrite Hnames.
Qed.

End SplitFacts.

(** ** The pairs that the splitter returns *)

Section SplitClaims.
Context `{UnicodeData} {Page Image : Type} `{!Collaborators Page Image}.
Implicit Types (pages : list Page) (w : world Page Image) (d : dict)
  (output_dir : str).

Lemma split_returned pages d output_dir w :
  in_bounds pages d -> writes_succeed pages d output_dir ->
  returned (split_pdf_by_fcr_ranges pages d output_dir) w
  = Some (output_file output_dir <$> d).
Proof.
  intros Hin Hok. unfold returned, split_pdf_by_fcr_ranges.
  by rewrite split_loop_spec.
Qed.

Lemma split_after pages d output_dir w :
  in_bounds pages d -> writes_succeed pages d output_dir ->
  after (split_pdf_by_fcr_ranges pages d output_dir) w
  = World (write_all (disk w)
             ((fun kv => (output_path output_dir kv.1, output_doc pages kv)) <$> d))
          (journal w ++
             ((fun kv => Wrote (output_path output_dir kv.1) (output_doc pages kv)) <$> d)).
Proof.
  intros Hin Hok. unfold after, split_pdf_by_fcr_ranges.
  by rewrite split_loop_spec.
Qed.

(** C10: when the ranges lie inside the document and no write fails,
    [split_pdf_by_fcr_ranges] returns one (file name, path) pair per entry
    of the map, in the order of the map.  Two entries whose identifiers
    have the same file name give two pairs with that name and the same
    path; the file at a path holds the document of the last entry that was
    written there; and the archive gets one entry per pair, under the
    names of the pairs, duplicates included. *)
Theorem split_returns_pair_per_entry pages d output_dir w :
  in_bounds pages d -> writes_succeed pages d output_dir ->
  let m := split_pdf_by_fcr_ranges pages d output_dir in
  returned m w = Some (output_file output_dir <$> d)
  /\ (forall (i j : nat) k1 r1 k2 r2,
        d !! i = Some (k1, r1) -> d !! j = Some (k2, r2) ->
        filename k1 = filename k2 ->
        (output_file output_dir <$> d) !! i
          = Some (filename k1, output_path output_dir k1)
        /\ (output_file output_dir <$> d) !! j
          = Some (filename k1, output_path output_dir k1))
  /\ (forall (j : nat) k r,
        d !! j = Some (k, r) ->
        (forall (j' : nat) k' r', (j < j')%nat -> d !! j' = Some (k', r') ->
           output_path output_dir k' ≠ output_path output_dir k) ->
        disk (after m w) !! output_path output_dir k = Some (output_doc pages (k, r)))
  /\ (exists entries,
        returned (create_zip (output_file output_dir <$> d)) (after m w) = Some entries
        /\ entries.*1 = filename <$> d.*1).
Proof.
  intros Hin Hok m. subst m. split_and!.
  - by apply split_returned.
  - intros i j k1 r1 k2 r2 Hi Hj Hname.
    rewrite !list_lookup_fmap, Hi, Hj. simpl.
    unfold output_file, output_path. simpl. by rewrite Hname.
  - intros j k r Hj Hlast. rewrite split_after by done. simpl.
    rewrite <- (take_drop_middle _ _ _ Hj), fmap_app, fmap_cons. simpl.
    apply write_all_last.
    intros ([path doc] & Hpath & Hin')%list_elem_of_fmap. simpl in Hpath.
    apply list_elem_of_fmap in Hin' as ([k' r'] & [= -> ->] & Hin').
    apply list_elem_of_lookup in Hin' as [j' Hj'].
    rewrite lookup_drop in Hj'. simpl in Hpath.
    apply (Hlast (S j + j')%nat k' r'); [lia|done|done].
  - destruct (zip_entries_names (output_file output_dir <$> d)
                (after (split_pdf_by_fcr_ranges pages d output_dir) w))
      as (entries & Hzip & Hnames).
    + intros name path ([k r] & [= -> ->] & Hkr)%list_elem_of_fmap.
      rewrite split_after by done. simpl. apply write_all_is_Some.
      rewrite <- list_fmap_compose. apply list_elem_of_fmap. by exists (k, r).
    + exists entries. unfold returned. rewrite Hzip. split; [done|].
      rewrite Hnames, <- !list_fmap_compose. done.
Qed.

End SplitClaims.

Lemma split_returns_pair_per_entry_witness :
  returned (split_pdf_by_fcr_ranges [digital "RECEIPT NO AB(1"; digital "RECEIPT NO AB)"]
              [(lit "AB(", (0, 0)); (lit "AB)", (1, 1))] (lit "out")) empty_world
  = Some [(lit "FCR_AB_.pdf", lit "out/FCR_AB_.pdf");
          (lit "FCR_AB_.pdf", lit "out/FCR_AB_.pdf")].
Proof.
  refine (proj1 (split_returns_pair_per_entry
                   [digital "RECEIPT NO AB(1"; digital "RECEIPT NO AB)"]
                   [(lit "AB(", (0, 0)); (lit "AB)", (1, 1))] (lit "out") empty_world
                   _ _)).
  - intros k s e Hin.
    repeat (apply elem_of_cons in Hin as [[= -> -> ->]|Hin]; [simpl; lia|]).
    by apply elem_of_nil in Hin.
  - intros k s e Hin.
    repeat (apply elem_of_cons in Hin as [[= -> -> ->]|Hin]; [reflexivity|]).
    by apply elem_of_nil in Hin.
Defined.

(** That map is the one the segmenter gives for these two pages. *)
Example colliding_identifiers :
  returned (find_fcr_ranges [digital "RECEIPT NO AB(1"; digital "RECEIPT NO AB)"]
              (lit "tmp")) empty_world
  = Some [(lit "AB(", (0, 0)); (lit "AB)", (1, 1))].
Proof. reflexivity. Qed.

(** ** The output documents and the covered pages *)

Section RoundTripFacts.
Context {Page : Type}.
Implicit Types (pages : list Page) (d : dict).














End RoundTripFacts.

(** ** Splitting by the map of the segmenter *)

Section RoundTripClaim.
Context `{UnicodeData} {Page Image : Type} `{!Collaborators Page Image}.
Implicit Types (pages : list Page) (w : world Page Image) (d : dict).

#[local] Instance by_start_total : Total by_start.
Proof. intros a b. unfold by_start. lia. Qed.

#[local] Instance by_start_trans : Transitive by_start.
Proof. intros a b c. unfold by_start. lia. Qed.

Lemma ranges_wf_in_bounds pages d :
  ranges_wf (Z.of_nat (length pages)) d -> in_bounds pages d.
Proof. intros (_ & Hb & _) k s e Hin. specialize (Hb k s e Hin). lia. Qed.


End RoundTripClaim.


(** ** Every range belongs to its identifier *)

Section PurityFacts.
Context `{UnicodeData}.
Implicit Types (st : seg_state) (d : dict) (texts : list str).

Lemma detected_out_of_range texts j :
  (length texts <= j)%nat -> detected texts j = None.
Proof. intros Hj. unfold detected. by rewrite lookup_ge_None_2. Qed.

Lemma transition_purity_inv det total (n : nat) st :
  (n < total)%nat -> purity_inv det total n st ->
  (forall fcr, det n = Some fcr -> truthy fcr = true) ->
  purity_inv det total (S n) (transition (Z.of_nat n) (det n) st).
Proof.
  intros Hn (Hnd & Hent & Hcur) Htruthy.
  destruct (det n) as [fcr|] eqn:Hdet.
  2:{ rewrite transition_none. split_and!; [done..|].
      destruct (current_fcr st) as [c|].
      - destruct Hcur as (start & ? & ? & ? & Hsince).
        exists start. split_and!; [done|lia|done|].
        intros i Hi. destruct (decide (i = n)) as [->|]; [by left|]. apply Hsince. lia.
      - destruct Hcur as [? Hnone]. split; [done|].
        intros i Hi. destruct (decide (i = n)) as [->|]; [done|]. apply Hnone. lia. }
  destruct (decide (current_fcr st = Some fcr)) as [Hsame|Hnew].
  { rewrite transition_same by done. split_and!; [done..|]. rewrite Hsame in *.
    destruct Hcur as (start & ? & ? & ? & Hsince).
    exists start. split_and!; [done|lia|done|].
    intros i Hi. destruct (decide (i = n)) as [->|]; [by right|]. apply Hsince. lia. }
  rewrite transition_new; [|by apply Htruthy|done]. unfold purity_inv. simpl.
  destruct (current_fcr st) as [c|] eqn:Hc.
  - destruct Hcur as (start & Hst & Hlt & Hstart & Hsince).
    split_and!.
    + by apply dict_set_NoDup.
    + intros [k [s e]] Hin.
      apply dict_set_elem_of in Hin as [[-> [= -> ->]]|[Hin _]]; [|by apply Hent|done].
      exists start, (n - 1)%nat. simpl. split_and!.
      * f_equal; lia.
      * lia.
      * lia.
      * done.
      * intros i Hi. destruct (decide (i = start)) as [->|]; [by right|].
        apply Hsince. lia.
      * right. exists fcr. replace (S (n - 1)) with n by lia.
        split; [done|congruence].
    + exists n. split_and!; [done|lia|done|intros; lia].
  - destruct Hcur as [Hd Hnone]. split_and!; [done|done|].
    exists n. split_and!; [done|lia|done|intros; lia].
Qed.

(** The last page closes the open range. *)
Lemma finalize_purity_inv det (total : nat) st c :
  purity_inv det total total st -> current_fcr st = Some c ->
  purity_inv det total total
    (SegState (dict_set c (start_page st, Z.of_nat total - 1) (fcr_ranges st))
              (current_fcr st) (start_page st)).
Proof.
  intros (Hnd & Hent & Hcur) Hc. rewrite Hc in Hcur.
  destruct Hcur as (start & Hst & Hlt & Hstart & Hsince).
  unfold purity_inv. simpl. split_and!.
  - by apply dict_set_NoDup.
  - intros [k [s e]] Hin.
    apply dict_set_elem_of in Hin as [[-> [= -> ->]]|[Hin _]]; [|by apply Hent|done].
    exists start, (total - 1)%nat. simpl. split_and!.
    + f_equal; lia.
    + lia.
    + lia.
    + done.
    + intros i Hi. destruct (decide (i = start)) as [->|]; [by right|].
      apply Hsince. lia.
    + left. lia.
  - rewrite Hc. exists start. by split_and!.
Qed.

Lemma steps_purity_inv texts (k : nat) :
  (k <= length texts)%nat ->
  purity_inv (detected texts) (length texts) k
    (steps (Z.of_nat (length texts)) 0 (take k texts) (SegState [] None 0)).
Proof.
  induction k as [|k IH]; intros Hk.
  - unfold purity_inv. simpl.
    split_and!; [apply NoDup_nil_2|by intros kv ?%elem_of_nil|done|intros; lia].
  - destruct (lookup_lt_is_Some_2 texts k) as [text Htext]; [lia|].
    rewrite (take_S_r _ _ _ Htext), steps_app. simpl.
    rewrite length_take_le, Z.add_0_l by lia.
    specialize (IH ltac:(lia)).
    set (st := steps _ 0 (take k texts) _) in *.
    destruct (truthy text) eqn:Htruthy.
    + rewrite (step_transition _ _ texts) by (done || congruence). simpl.
      pose proof (transition_purity_inv (detected texts) (length texts) k st ltac:(lia) IH
                    (detected_truthy texts k)) as Hinv1.
      destruct (Z.eqb_spec (Z.of_nat k) (Z.of_nat (length texts) - 1)) as [Hlast|Hmid];
        [|done].
      destruct (current_fcr (transition _ _ st)) as [c|] eqn:Hc; [|done].
      assert (S k = length texts) as Heq by lia. rewrite Heq in *.
      pose proof (finalize_purity_inv _ _ _ c Hinv1 Hc) as Hfin.
      rewrite Hc in Hfin.
      by replace (Z.of_nat (length texts) - 1) with (Z.of_nat k) in Hfin by lia.
    + unfold step. rewrite Htruthy. simpl.
      pose proof (transition_purity_inv (detected texts) (length texts) k st ltac:(lia) IH
                    (detected_truthy texts k)) as Hinv1.
      unfold detected in Hinv1 at 2. rewrite Htext in Hinv1. simpl in Hinv1.
      by rewrite detect_blank, transition_none in Hinv1.
Qed.

Lemma segment_purity_inv texts :
  purity_inv (detected texts) (length texts) (length texts)
    (steps (Z.of_nat (length texts)) 0 texts (SegState [] None 0)).
Proof.
  pose proof (steps_purity_inv texts (length texts) ltac:(lia)) as Hinv.
  by rewrite firstn_all in Hinv.
Qed.

End PurityFacts.

(** ** The map and the observations *)

Section ObservationClaims.
Context `{UnicodeData} {Page Image : Type} `{!Collaborators Page Image}.
Implicit Types (pages : list Page) (w : world Page Image) (temp_dir : str).

(** X1: on a document none of whose pages shows an identifier,
    [find_fcr_ranges] returns the empty map. *)
Theorem find_fcr_ranges_no_identifier pages temp_dir w :
  let texts := (fun page => page_text page temp_dir) <$> pages in
  (forall i, detected texts i = None) ->
  returned (find_fcr_ranges pages temp_dir) w = Some [].
Proof.
  intros texts Hnone. rewrite find_fcr_ranges_segment. f_equal. fold texts.
  destruct (segment_purity_inv texts) as (_ & Hent & _).
  unfold segment. destruct (fcr_ranges _) as [|kv d]; [done|].
  destruct (Hent kv) as (s & e & _ & _ & Hs & _); [left|]. by rewrite Hnone in Hs.
Qed.


(** X3: when the last page has a text and some page shows an identifier,
    the map has an entry that ends on the last page; it belongs to the
    identifier observed last. *)
Theorem find_fcr_ranges_closes_last_range pages temp_dir w (i : nat) :
  let texts := (fun page => page_text page temp_dir) <$> pages in
  (forall text, last texts = Some text -> truthy text = true) ->
  detected texts i ≠ None ->
  exists d c (start : nat),
    returned (find_fcr_ranges pages temp_dir) w = Some d
    /\ (c, (Z.of_nat start, Z.of_nat (length pages) - 1)) ∈ d
    /\ detected texts start = Some c
    /\ forall j, (start < j)%nat -> detected texts j = None \/ detected texts j = Some c.
Proof.
  intros texts Hlast Hi.
  assert (Hlen : length texts = length pages) by apply length_fmap.
  destruct (decide (texts = [])) as [Hnil|Hne].
  { rewrite Hnil in Hi. by destruct i. }
  destruct (exists_last Hne) as (pre & text & Heq).
  assert (Htext : truthy text = true) by (apply Hlast; rewrite Heq; apply last_snoc).
  destruct (segment_purity_inv texts) as (_ & _ & Hcur).
  pose proof (last_page_closes pre text) as Hclose. rewrite <- Heq in Hclose.
  cbv zeta in Hclose.
  destruct (current_fcr _) as [c|] eqn:Hc.
  - destruct Hcur as (start & Hst & Hlt & Hstart & Hsince).
    exists (segment texts), c, start. split_and!.
    + apply find_fcr_ranges_segment.
    + specialize (Hclose c Htext eq_refl). rewrite Hst in Hclose.
      unfold segment. rewrite <- Hlen. exact Hclose.
    + done.
    + intros j Hj. destruct (decide (j < length texts)%nat); [apply Hsince; lia|].
      left. apply detected_out_of_range. lia.
  - destruct Hcur as [_ Hnone]. destruct Hi.
    destruct (decide (i < length texts)%nat); [by apply Hnone|].
    apply detected_out_of_range. lia.
Qed.

(** X4: the map does not depend on the files on the disk nor on the
    journal: a [temp_page.pdf] left by an earlier page or an earlier run
    is never read for another page.  In particular a second run, in the
    world that the first run leaves, returns the same map. *)
Theorem find_fcr_ranges_independent pages temp_dir w w' :
  returned (find_fcr_ranges pages temp_dir) w
  = returned (find_fcr_ranges pages temp_dir) w'
  /\ returned (find_fcr_ranges pages temp_dir ;;; find_fcr_ranges pages temp_dir) w
     = returned (find_fcr_ranges pages temp_dir) w.
Proof.
  split; [by rewrite !find_fcr_ranges_segment|].
  rewrite (find_fcr_ranges_segment pages temp_dir w).
  pose proof (find_fcr_ranges_segment pages temp_dir w) as Hfirst.
  unfold returned, bind in *.
  destruct (find_fcr_ranges pages temp_dir w) as [[d|e] w1]; [|done].
  pose proof (find_fcr_ranges_segment pages temp_dir w1) as Hsecond.
  unfold returned in Hsecond.
  by destruct (find_fcr_ranges pages temp_dir w1) as [[d'|e] w2].
Qed.

End ObservationClaims.

Lemma find_fcr_ranges_no_identifier_witness :
  returned (find_fcr_ranges [digital "invoice"; blank] (lit "tmp")) empty_world = Some [].
Proof.
  apply (find_fcr_ranges_no_identifier [digital "invoice"; blank] (lit "tmp") empty_world).
  intros [|[|i]]; [reflexivity..|]. apply detected_beyond. simpl. lia.
Defined.

Lemma find_fcr_ranges_closes_last_range_witness :
  exists d c (start : nat),
    returned (find_fcr_ranges [digital "FCR NO Q1"; scanned "annex"] (lit "tmp"))
      empty_world = Some d
    /\ (c, (Z.of_nat start, 1)) ∈ d.
Proof.
  destruct (find_fcr_ranges_closes_last_range
              [digital "FCR NO Q1"; scanned "annex"] (lit "tmp") empty_world 0)
    as (d & c & start & Hd & Hin & _).
  - intros text [= <-]. reflexivity.
  - discriminate.
  - by exists d, c, start.
Defined.

(** ** Without returning identifiers the map is in page order *)

Section OrderFacts.
Context `{UnicodeData}.
Implicit Types (st : seg_state) (d : dict) (texts : list str).







End OrderFacts.

Section OrderClaim.
Context `{UnicodeData} {Page Image : Type} `{!Collaborators Page Image}.
Implicit Types (pages : list Page) (w : world Page Image).


End OrderClaim.


(** ** Text extraction: the channel, the disk and the blank test *)

Section ExtractionExtras.
Context `{UnicodeData} {Page Image : Type} `{!Collaborators Page Image}.
Implicit Types (page : Page) (w : world Page Image) (temp_dir text : str).

Ltac run_monad :=
  unfold returned, after, extract_text_from_page, write_pdf, convert_from_path,
    ocr, st_error, log, try_except, lift, ret, bind; simpl.

Lemma diagnostics_app (evs1 evs2 : list (event Page Image)) :
  diagnostics (evs1 ++ evs2) = diagnostics evs1 ++ diagnostics evs2.
Proof. unfold diagnostics. apply flat_map_app. Qed.

Lemma lstrip_truthy text : truthy (Uni.lstrip text) = existsb visible text.
Proof.
  induction text as [|c text IH]; [done|]. simpl. unfold visible at 1.
  by destruct (Uni.isspace c).
Qed.

Lemma lstrip_visible text : existsb visible (Uni.lstrip text) = existsb visible text.
Proof.
  induction text as [|c text IH]; [done|]. simpl. unfold visible at 2.
  destruct (Uni.isspace c) eqn:Hc; [done|]. simpl. unfold visible at 1. by rewrite Hc.
Qed.

Lemma existsb_rev {A} (f : A -> bool) (l : list A) : existsb f (rev l) = existsb f l.
Proof.
  induction l as [|x l IH]; [done|]. simpl.
  rewrite existsb_app, IH. simpl. rewrite orb_false_r. apply orb_comm.
Qed.

Lemma truthy_rev (s : str) : truthy (rev s) = truthy s.
Proof. destruct s as [|c s]; [done|]. simpl. by destruct (rev s). Qed.

(** The test of line 28 asks for a character that is not whitespace. *)
Lemma blank_test_visible text :
  truthy text && truthy (Uni.strip text) = existsb visible text.
Proof.
  unfold Uni.strip.
  rewrite truthy_rev, lstrip_truthy, existsb_rev, lstrip_visible.
  destruct text as [|c text]; [done|]. done.
Qed.

Lemma app_cons_neq {A} (l l' : list A) (x : A) : l ++ x :: l' ≠ l.
Proof.
  intros Heq. apply (f_equal length) in Heq. rewrite length_app in Heq.
  simpl in Heq. lia.
Qed.

(** X6: a page whose embedded text has a character that is not
    whitespace is returned as it is, and that is the only case in which
    [extract_text_from_page] leaves the disk and the journal untouched:
    with a blank embedded text the journal always grows. *)
Theorem extract_text_from_page_direct page temp_dir w text :
  page_extract_text page = Ok text ->
  let m := extract_text_from_page page temp_dir in
  (existsb visible text = true -> returned m w = Some text)
  /\ (after m w = w <-> existsb visible text = true).
Proof.
  intros He m. subst m. rewrite <- blank_test_visible.
  run_monad. rewrite He. simpl.
  destruct (truthy text && truthy (Uni.strip text)); simpl.
  - split; [done|]. by destruct w.
  - split; [done|]. split; [|done]. intros Hsame. exfalso.
    destruct (pdf_write_error _ _); simpl in Hsame.
    + apply (f_equal journal) in Hsame. simpl in Hsame.
      by apply (app_cons_neq (journal w) []) in Hsame.
    + rewrite lookup_insert_eq in Hsame.
      destruct (rasterize _ _ _ _) as [[|image0 imgs]|e]; simpl in Hsame;
        [| |]; try destruct (image_to_string _ _); simpl in Hsame;
        apply (f_equal journal) in Hsame; simpl in Hsame;
        rewrite <- ?app_assoc in Hsame; simpl in Hsame;
        by apply app_cons_neq in Hsame.
Qed.

(** X7: [extract_text_from_page] only adds to the journal.  When a step
    raises, exactly one diagnostic is added to the error channel, with
    the message of the exception; when no step raises, none is added. *)
Theorem extract_text_from_page_diagnostic page temp_dir w :
  let w' := after (extract_text_from_page page temp_dir) w in
  (exists evs, journal w' = journal w ++ evs)
  /\ (forall e, raises page temp_dir e ->
        diagnostics (journal w')
        = diagnostics (journal w) ++ [lit "Error extracting text: " ++ e])
  /\ ((forall e, ~ raises page temp_dir e) ->
        diagnostics (journal w') = diagnostics (journal w)).
Proof.
  intros w'. subst w'. split_and!.
  - run_monad. destruct (page_extract_text page) as [text|e]; simpl; [|by eexists].
    destruct (truthy text && truthy (Uni.strip text)); simpl; [by exists []; rewrite app_nil_r|].
    destruct (pdf_write_error _ _); simpl; [by eexists|].
    rewrite lookup_insert_eq.
    destruct (rasterize _ _ _ _) as [[|image0 imgs]|e]; simpl;
      try destruct (image_to_string _ _); simpl;
      rewrite <- ?app_assoc; by eexists.
  - intros e [e' He|text e' He Hblank Hw|text e' He Hblank Hw Hr
              |text image0 images e' He Hblank Hw Hr Ho];
      run_monad; rewrite He; simpl; rewrite ?(blank_test _ Hblank), ?Hw; simpl;
      rewrite ?lookup_insert_eq, ?Hr; simpl; rewrite ?Ho; simpl;
      rewrite !diagnostics_app; simpl; by rewrite ?app_nil_r.
  - intros Hnone. run_monad.
    destruct (page_extract_text page) as [text|e] eqn:He; simpl;
      [|destruct (Hnone e); by constructor].
    destruct (truthy text && truthy (Uni.strip text)) eqn:Hblank; simpl; [done|].
    assert (Hstrip : truthy (Uni.strip text) = false).
    { destruct (truthy (Uni.strip text)) eqn:Hs; [|done].
      by rewrite (strip_truthy _ Hs) in Hblank. }
    destruct (pdf_write_error _ _) as [e|] eqn:Hw; simpl;
      [destruct (Hnone e); by apply (raises_write _ _ text)|].
    rewrite lookup_insert_eq.
    destruct (rasterize _ _ _ _) as [[|image0 imgs]|e] eqn:Hr; simpl.
    + rewrite !diagnostics_app. simpl. by rewrite !app_nil_r.
    + destruct (image_to_string _ _) as [recognised|e] eqn:Ho; simpl.
      * rewrite !diagnostics_app. simpl. by rewrite !app_nil_r.
      * destruct (Hnone e). by apply (raises_ocr _ _ text image0 imgs).
    + destruct (Hnone e). by apply (raises_rasterize _ _ text).
Qed.


End ExtractionExtras.

Lemma extract_text_from_page_direct_witness :
  returned (extract_text_from_page (digital " FCR NO 5 ") (lit "tmp")) empty_world
  = Some (lit " FCR NO 5 ").
Proof.
  refine (proj1 (extract_text_from_page_direct (digital " FCR NO 5 ") (lit "tmp")
                   empty_world (lit " FCR NO 5 ") _) _); reflexivity.
Defined.

(** ** File names are safe *)

Section FilenameExtras.
Context `{UnicodeData}.
Implicit Types (fcr_num : str).

Lemma safe_replacement c : safe (if safe c then c else 0x5F%N) = true.
Proof. by destruct (safe c) eqn:Hc. Qed.

(** X9: a file name consists of safe characters only: it contains no
    slash and no backslash, whatever the identifier is, and it is eight
    characters longer than the identifier. *)
Theorem filename_safe fcr_num :
  Forall (fun c => safe c = true) (filename fcr_num)
  /\ (0x2F%N ∉ filename fcr_num)
  /\ (0x5C%N ∉ filename fcr_num)
  /\ length (filename fcr_num) = (length fcr_num + 8)%nat.
Proof.
  assert (Hsafe : Forall (fun c => safe c = true) (filename fcr_num)).
  { unfold filename. rewrite clean_fcr_num_map. rewrite !Forall_app. split_and!.
    - by repeat constructor.
    - apply Forall_fmap, Forall_forall. intros c _. apply safe_replacement.
    - by repeat constructor. }
  split_and!; [done| | |].
  - intros Hin. by apply (proj1 (Forall_forall _ _) Hsafe) in Hin.
  - intros Hin. by apply (proj1 (Forall_forall _ _) Hsafe) in Hin.
  - unfold filename. rewrite clean_fcr_num_map, !length_app, length_fmap. simpl. lia.
Qed.

(** X10: sanitising keeps the length and every safe character in its
    place; an identifier of safe characters is its own sanitised form, and
    only such an identifier is; sanitising twice is sanitising once. *)
Theorem clean_fcr_num_safe fcr_num :
  length (clean_fcr_num fcr_num) = length fcr_num
  /\ (forall (i : nat) c, fcr_num !! i = Some c -> safe c = true ->
        clean_fcr_num fcr_num !! i = Some c)
  /\ (clean_fcr_num fcr_num = fcr_num <-> Forall (fun c => safe c = true) fcr_num)
  /\ clean_fcr_num (clean_fcr_num fcr_num) = clean_fcr_num fcr_num.
Proof.
  rewrite !clean_fcr_num_map. split_and!.
  - apply length_fmap.
  - intros i c Hi Hc. by rewrite list_lookup_fmap, Hi; simpl; rewrite Hc.
  - induction fcr_num as [|c s IH]; [by split; [constructor|]|].
    csimpl. rewrite Forall_cons. split.
    + intros [= Hc Hs]. split; [|by apply IH].
      destruct (safe c) eqn:Hsafe; [done|]. rewrite <- Hc in Hsafe.
      vm_compute in Hsafe. discriminate.
    + intros [Hc Hs]. rewrite Hc. f_equal. by apply IH.
  - rewrite <- list_fmap_compose. apply list_fmap_ext. intros i c _. simpl.
    by rewrite safe_replacement.
Qed.

End FilenameExtras.

(** ** The splitter stops at the first failure *)

Section SplitExtras.
Context `{UnicodeData} {Page Image : Type} `{!Collaborators Page Image}.
Implicit Types (pages : list Page) (w : world Page Image) (d : dict)
  (output_dir : str).

Lemma pages_getitem_beyond pages i :
  Z.of_nat (length pages) <= i ->
  pages_getitem pages i = Raise (lit "sequence index out of range").
Proof.
  intros Hi. unfold pages_getitem.
  assert (Hneg : (i <? 0) = false) by (apply Z.ltb_ge; lia).
  assert (Hn : (Z.of_nat (length pages) <=? i) = true) by (apply Z.leb_le; lia).
  cbv zeta. rewrite Hneg, Hneg, Hn. done.
Qed.

(** A run of indices that goes beyond the last page raises, whatever
    was added before. *)
Lemma add_pages_beyond pages (len : nat) : forall s writer,
  0 <= s -> (0 < len)%nat -> Z.of_nat (length pages) < s + Z.of_nat len ->
  add_pages pages (seqZ s (Z.of_nat len)) writer
  = Raise (lit "sequence index out of range").
Proof.
  induction len as [|len IH]; intros s writer Hs Hpos Hlen; [lia|].
  rewrite seqZ_cons by lia. simpl.
  destruct (decide (Z.of_nat (length pages) <= s)) as [Hout|Hin].
  - by rewrite pages_getitem_beyond.
  - destruct (lookup_lt_is_Some_2 pages (Z.to_nat s)) as [page Hpage]; [lia|].
    rewrite (pages_getitem_lookup _ _ _ Hs Hpage).
    replace (Z.pred (Z.of_nat (S len))) with (Z.of_nat len) by lia.
    apply IH; lia.
Qed.

Lemma split_world_nil pages output_dir w : split_world pages [] output_dir w = w.
Proof. unfold split_world. simpl. rewrite app_nil_r. by destruct w. Qed.

Lemma split_world_cons pages kv d output_dir w :
  split_world pages (kv :: d) output_dir w
  = split_world pages d output_dir
      (World (<[output_path output_dir kv.1 := output_doc pages kv]> (disk w))
             (journal w ++ [Wrote (output_path output_dir kv.1) (output_doc pages kv)])).
Proof. unfold split_world. simpl. by rewrite <- app_assoc. Qed.

(** The loop over a prefix of entries that are in bounds and written
    without failure. *)
Lemma split_loop_prefix pages output_dir d1 rest : forall output_files w,
  in_bounds pages d1 -> writes_succeed pages d1 output_dir ->
  split_loop pages (d1 ++ rest) output_dir output_files w
  = split_loop pages rest output_dir (output_files ++ (output_file output_dir <$> d1))
      (split_world pages d1 output_dir w).
Proof.
  induction d1 as [|[k [s e]] d1 IH]; intros output_files w Hin Hok.
  - simpl. by rewrite app_nil_r, split_world_nil.
  - destruct (Hin k s e) as [Hs He]; [left|].
    rewrite split_world_cons. cbn [app split_loop].
    unfold bind at 1, lift. rewrite (add_pages_range _ _ _ Hs He).
    unfold bind at 1, write_pdf. fold (output_path output_dir k).
    rewrite (Hok k s e) by left.
    rewrite IH.
    + csimpl. by rewrite <- app_assoc.
    + intros k' s' e' Hk'. apply (Hin k' s' e'). by right.
    + intros k' s' e' Hk'. apply (Hok k' s' e'). by right.
Qed.

(** X11: a range that reaches beyond the last page makes
    [split_pdf_by_fcr_ranges] raise [IndexError]; nothing is returned, and
    the files of the entries before it have been written and stay. *)
Theorem split_index_error pages d1 k s e d2 output_dir w :
  in_bounds pages d1 -> writes_succeed pages d1 output_dir ->
  0 <= s <= e -> Z.of_nat (length pages) <= e ->
  split_pdf_by_fcr_ranges pages (d1 ++ (k, (s, e)) :: d2) output_dir w
  = (Raise (lit "sequence index out of range"), split_world pages d1 output_dir w).
Proof.
  intros Hin Hok Hse He. unfold split_pdf_by_fcr_ranges.
  rewrite split_loop_prefix by done. simpl. unfold bind, lift, range.
  rewrite <- (Z2Nat.id (e + 1 - s)) by lia.
  by rewrite add_pages_beyond by lia.
Qed.


(** X13: on the map of the segmenter the splitter meets no index out of
    range: it returns one pair per entry, or it raises the exception of a
    write that failed. *)
Theorem split_segment_outcome pages temp_dir output_dir w :
  let d := segment ((fun page => page_text page temp_dir) <$> pages) in
  match split_pdf_by_fcr_ranges pages d output_dir w with
  | (Ok output_files, _) => output_files = output_file output_dir <$> d
  | (Raise err, _) =>
      exists k s e, (k, (s, e)) ∈ d
        /\ pdf_write_error (output_path output_dir k) (slice pages s e) = Some err
  end.
Proof.
  intros d.
  assert (Hin : in_bounds pages d).
  { apply ranges_wf_in_bounds. subst d.
    rewrite <- (length_fmap (fun page => page_text page temp_dir)). apply segment_wf. }
  unfold split_pdf_by_fcr_ranges.
  assert (Hgen : forall d' output_files w', in_bounds pages d' ->
            match split_loop pages d' output_dir output_files w' with
            | (Ok files, _) => files = output_files ++ (output_file output_dir <$> d')
            | (Raise err, _) =>
                exists k s e, (k, (s, e)) ∈ d'
                  /\ pdf_write_error (output_path output_dir k) (slice pages s e) = Some err
            end).
  { clear. induction d' as [|[k [s e]] d' IH]; intros output_files w' Hin; simpl.
    - by rewrite app_nil_r.
    - destruct (Hin k s e) as [Hs He]; [left|].
      unfold bind at 1, lift. rewrite (add_pages_range _ _ _ Hs He).
      unfold bind at 1, write_pdf. fold (output_path output_dir k).
      destruct (pdf_write_error _ _) as [err|] eqn:Herr.
      + exists k, s, e. split; [left|done].
      + specialize (IH (output_files ++ [(filename k, output_path output_dir k)])
                       (World (<[output_path output_dir k := slice pages s e]> (disk w'))
                              (journal w' ++ [Wrote (output_path output_dir k) (slice pages s e)]))).
        destruct (split_loop _ _ _ _ _) as [[files|err] w2].
        * rewrite IH; [by rewrite <- app_assoc|].
          intros k' s' e' Hk'. apply (Hin k' s' e'). by right.
        * destruct IH as (k' & s' & e' & Hk' & Herr').
          { intros k'' s'' e'' Hk''. apply (Hin k'' s'' e''). by right. }
          exists k', s', e'. split; [by right|done]. }
  specialize (Hgen d [] w Hin).
  by destruct (split_loop _ _ _ _ _) as [[files|err] w2].
Qed.

End SplitExtras.

Lemma split_index_error_witness :
  split_pdf_by_fcr_ranges [digital "only page"] [(lit "K1", (0, 3))] (lit "out") empty_world
  = (Raise (lit "sequence index out of range"), empty_world).
Proof.
  refine (split_index_error [digital "only page"] [] (lit "K1") 0 3 [] (lit "out")
            empty_world _ _ _ _).
  - by intros k s e ?%elem_of_nil.
  - by intros k s e ?%elem_of_nil.
  - lia.
  - simpl. lia.
Defined.


(** ** The archive of the output files *)

Section ZipExtras.
Context `{UnicodeData} {Page Image : Type} `{!Collaborators Page Image}.
Implicit Types (pages : list Page) (w : world Page Image) (d : dict)
  (output_dir : str) (output_files : list (str * str)).

(** Every entry of the archive is the file of its pair, under the name
    of the pair. *)
Lemma zip_entries_lookup output_files w :
  (forall name path, (name, path) ∈ output_files -> is_Some (disk w !! path)) ->
  exists entries, create_zip output_files w = (Ok entries, w)
    /\ length entries = length output_files
    /\ forall (i : nat) name path, output_files !! i = Some (name, path) ->
         exists doc, disk w !! path = Some doc /\ entries !! i = Some (name, doc).
Proof.
  unfold create_zip.
  induction output_files as [|[name path] rest IH]; intros Hfiles; simpl.
  - exists []. split_and!; [done..|]. by intros i name path ?.
  - destruct (Hfiles name path) as [doc Hdoc]; [left|].
    destruct IH as (entries & Hzip & Hlen & Hent).
    { intros name' path' Hin. apply (Hfiles name' path'). by right. }
    exists ((name, doc) :: entries). unfold bind, ret. rewrite Hdoc, Hzip.
    split_and!; [done|simpl; lia|].
    intros [|i] name' path' Hi; simpl in *.
    + injection Hi as <- <-. by exists doc.
    + by apply Hent.
Qed.

(** X14: when a file of a pair is missing, [create_zip] raises and
    changes nothing on the disk of the model. *)
Theorem create_zip_missing_file output_files w name path :
  (name, path) ∈ output_files -> disk w !! path = None ->
  create_zip output_files w = (Raise (lit "No such file or directory"), w).
Proof.
  unfold create_zip.
  induction output_files as [|[name' path'] rest IH]; intros Hin Hnone;
    [by apply elem_of_nil in Hin|].
  simpl. unfold bind at 1.
  destruct (disk w !! path') as [doc|] eqn:Hdoc; [|done].
  apply elem_of_cons in Hin as [[= -> ->]|Hin]; [congruence|].
  unfold bind. by rewrite (IH Hin Hnone).
Qed.

(** In a list, every element has a last occurrence. *)
Lemma last_occurrence (l : list str) : forall (i : nat) p,
  l !! i = Some p ->
  exists j : nat, (i <= j)%nat /\ l !! j = Some p
    /\ forall j' : nat, (j < j')%nat -> l !! j' ≠ Some p.
Proof.
  induction l as [|x l IH]; intros i p Hi; [done|].
  assert (Hlater : forall i', l !! i' = Some p ->
            exists j : nat, (i <= j)%nat /\ (x :: l) !! j = Some p
              /\ forall j' : nat, (j < j')%nat -> (x :: l) !! j' ≠ Some p).
  { intros i' Hi'. destruct (IH i' p Hi') as (j & Hj & Hjp & Hlast).
    destruct i as [|i].
    - exists (S j). split_and!; [lia|done|].
      intros [|j'] Hj'; [lia|]. apply Hlast. lia.
    - destruct (IH i p Hi) as (j0 & Hj0 & Hjp0 & Hlast0).
      exists (S j0). split_and!; [lia|done|].
      intros [|j'] Hj'; [lia|]. apply Hlast0. lia. }
  destruct i as [|i]; [|by apply (Hlater i)].
  destruct (decide (p ∈ l)) as [[i' Hi']%list_elem_of_lookup|Hnotin]; [by apply (Hlater i')|].
  exists 0%nat. split_and!; [lia|done|].
  intros [|j'] Hj' Hp; [lia|]. apply Hnotin. apply list_elem_of_lookup. by exists j'.
Qed.

(** The file at the path of an entry holds the document of the last
    entry written to that path. *)
Lemma split_world_lookup_last pages d output_dir w (j : nat) k r :
  d !! j = Some (k, r) ->
  (forall (j' : nat) k' r', (j < j')%nat -> d !! j' = Some (k', r') ->
     output_path output_dir k' ≠ output_path output_dir k) ->
  disk (split_world pages d output_dir w) !! output_path output_dir k
  = Some (output_doc pages (k, r)).
Proof.
  intros Hj Hlast. unfold split_world. simpl.
  rewrite <- (take_drop_middle _ _ _ Hj), fmap_app, fmap_cons. simpl.
  apply write_all_last.
  intros ([path doc] & Hpath & Hin')%list_elem_of_fmap. simpl in Hpath.
  apply list_elem_of_fmap in Hin' as ([k' r'] & [= -> ->] & Hin').
  apply list_elem_of_lookup in Hin' as [j' Hj'].
  rewrite lookup_drop in Hj'. simpl in Hpath.
  apply (Hlast (S j + j')%nat k' r'); [lia|done|done].
Qed.

(** X15: after a split without failure, [create_zip] gives one archive
    entry per entry of the map, in the order of the map.  The entry of an
    identifier has the file name of the identifier and holds the document
    of the last entry of the map that was written to the same path; so
    when the paths are pairwise different the archive holds every
    document under its own name, and when two identifiers share a path
    the later document is archived twice and the earlier one is lost. *)
Theorem split_then_create_zip pages d output_dir w :
  in_bounds pages d -> writes_succeed pages d output_dir ->
  let w' := after (split_pdf_by_fcr_ranges pages d output_dir) w in
  exists entries,
    create_zip (output_file output_dir <$> d) w' = (Ok entries, w')
    /\ length entries = length d
    /\ (forall (i : nat) k r, d !! i = Some (k, r) ->
          exists (j : nat) k' r',
            (i <= j)%nat /\ d !! j = Some (k', r')
            /\ output_path output_dir k' = output_path output_dir k
            /\ (forall (j' : nat) k'' r'', (j < j')%nat -> d !! j' = Some (k'', r'') ->
                  output_path output_dir k'' ≠ output_path output_dir k)
            /\ entries !! i = Some (filename k, output_doc pages (k', r')))
    /\ (NoDup (output_path output_dir <$> d.*1) ->
          entries = (fun kv => (filename kv.1, output_doc pages kv)) <$> d).
Proof.
  intros Hin Hok w'. subst w'. rewrite split_after by done.
  fold (split_world pages d output_dir w).
  destruct (zip_entries_lookup (output_file output_dir <$> d)
              (split_world pages d output_dir w)) as (entries & Hzip & Hlen & Hent).
  { intros name path ([k r] & [= -> ->] & Hkr)%list_elem_of_fmap.
    unfold split_world. simpl. apply write_all_is_Some.
    rewrite <- list_fmap_compose. apply list_elem_of_fmap. by exists (k, r). }
  assert (Hlast : forall (i : nat) k r, d !! i = Some (k, r) ->
            exists (j : nat) k' r',
              (i <= j)%nat /\ d !! j = Some (k', r')
              /\ output_path output_dir k' = output_path output_dir k
              /\ (forall (j' : nat) k'' r'', (j < j')%nat -> d !! j' = Some (k'', r'') ->
                    output_path output_dir k'' ≠ output_path output_dir k)
              /\ entries !! i = Some (filename k, output_doc pages (k', r'))).
  { intros i k r Hi.
    destruct (last_occurrence (output_path output_dir <$> d.*1) i (output_path output_dir k))
      as (j & Hij & Hj & Hnone).
    { by rewrite !list_lookup_fmap, Hi. }
    rewrite !list_lookup_fmap in Hj.
    destruct (d !! j) as [[k' r']|] eqn:Hdj; [|done]. injection Hj as Hpath.
    assert (Hlater : forall (j' : nat) k'' r'', (j < j')%nat -> d !! j' = Some (k'', r'') ->
              output_path output_dir k'' ≠ output_path output_dir k).
    { intros j' k'' r'' Hj' Hdj' Heq. apply (Hnone j' Hj').
      by rewrite !list_lookup_fmap, Hdj'; simpl; rewrite Heq. }
    exists j, k', r'. split_and!; [done..|].
    destruct (Hent i (filename k) (output_path output_dir k)) as (doc & Hdoc & Hentry).
    { by rewrite list_lookup_fmap, Hi. }
    rewrite Hentry. do 2 f_equal.
    rewrite <- Hpath in Hdoc.
    rewrite (split_world_lookup_last pages d output_dir w j k' r' Hdj) in Hdoc.
    - by injection Hdoc.
    - intros j' k'' r'' Hj' Hdj'. rewrite Hpath. by apply (Hlater j' k'' r'').
  }
  exists entries. split_and!; [done|by rewrite Hlen, length_fmap|done|].
  intros Hnodup. apply list_eq. intros i. rewrite list_lookup_fmap.
  destruct (d !! i) as [[k r]|] eqn:Hi; simpl.
  - destruct (Hlast i k r Hi) as (j & k' & r' & Hij & Hj & Hpath & _ & Hentry).
    rewrite Hentry. do 3 f_equal.
    assert (i = j) as <-.
    { apply (NoDup_lookup _ i j (output_path output_dir k) Hnodup).
      - by rewrite !list_lookup_fmap, Hi.
      - by rewrite !list_lookup_fmap, Hj; simpl; rewrite Hpath. }
    congruence.
  - apply lookup_ge_None_2. rewrite Hlen, length_fmap.
    by apply lookup_ge_None_1.
Qed.

End ZipExtras.

Lemma create_zip_missing_file_witness :
  create_zip [(lit "FCR_A.pdf", lit "out/FCR_A.pdf")] empty_world
  = (Raise (lit "No such file or directory"), empty_world).
Proof.
  apply (create_zip_missing_file [(lit "FCR_A.pdf", lit "out/FCR_A.pdf")] empty_world
           (lit "FCR_A.pdf") (lit "out/FCR_A.pdf")); [left|reflexivity].
Defined.

Lemma split_then_create_zip_witness :
  exists entries,
    create_zip (output_file (lit "out") <$> [(lit "AB(", (0, 0)); (lit "AB)", (1, 1))])
      (after (split_pdf_by_fcr_ranges [digital "RECEIPT NO AB(1"; digital "RECEIPT NO AB)"]
                [(lit "AB(", (0, 0)); (lit "AB)", (1, 1))] (lit "out")) empty_world)
    = (Ok entries,
       after (split_pdf_by_fcr_ranges [digital "RECEIPT NO AB(1"; digital "RECEIPT NO AB)"]
                [(lit "AB(", (0, 0)); (lit "AB)", (1, 1))] (lit "out")) empty_world)
    /\ length entries = 2%nat.
Proof.
  destruct (split_then_create_zip
              [digital "RECEIPT NO AB(1"; digital "RECEIPT NO AB)"]
              [(lit "AB(", (0, 0)); (lit "AB)", (1, 1))] (lit "out") empty_world)
    as (entries & Hzip & Hlen & _).
  - intros k s e Hin.
    repeat (apply elem_of_cons in Hin as [[= -> -> ->]|Hin]; [simpl; lia|]).
    by apply elem_of_nil in Hin.
  - intros k s e Hin.
    repeat (apply elem_of_cons in Hin as [[= -> -> ->]|Hin]; [reflexivity|]).
    by apply elem_of_nil in Hin.
  - by exists entries.
Defined.

(** ** What the group of a match holds *)

Section CaptureFacts.
Context `{UnicodeData}.
Implicit Types (p pre body : Re.pattern) (rest subject text : str) (ic : bool).

Ltac compare_all :=
  repeat match goal with
    | |- context [(?a <=? ?b)%N] => destruct (N.leb_spec a b); simpl in *; try lia
    | |- context [(?a <? ?b)%N] => destruct (N.ltb_spec a b); simpl in *; try lia
    | |- context [(?a =? ?b)%N] => destruct (N.eqb_spec a b); simpl in *; try lia
    end.

(** The part of a pattern after the opening parenthesis: the group is
    what the atoms before the closing parenthesis consume. *)
Lemma run_body ic body : Forall (fun n => is_rep n = true) body ->
  forall rest pos gopen cap e cap',
    Re.run ic (body ++ [Re.GroupClose]) rest pos gopen cap = Some (e, cap') ->
    exists sb post, rest = sb ++ post /\ accepts ic body sb
      /\ cap' = Some (gopen, (pos + length sb)%nat).
Proof.
  induction 1 as [|[a lo hi| |] body Hrep _ IH]; intros rest pos gopen cap e cap';
    simpl; [| |done|done].
  - intros [= <- <-]. exists [], rest. split_and!; [done|constructor|].
    by rewrite Nat.add_0_r.
  - intros (j & Hj & Hrun)%try_down_Some.
    destruct (IH _ _ _ _ _ _ Hrun) as (sb & post & Hrest & Hacc & ->).
    destruct (count_prefix_sound (Re.atom_matches ic a) hi rest) as (Hn & Hall & Hhi).
    exists (take j rest ++ sb), post. split_and!.
    + by rewrite <- app_assoc, <- Hrest, take_drop.
    + constructor; [|rewrite length_take; lia| |done].
      * replace (take j rest)
          with (take j (take (Re.count_prefix (Re.atom_matches ic a) hi rest) rest))
          by (rewrite take_take; f_equal; lia).
        by apply Forall_take.
      * intros h Hh. specialize (Hhi h Hh). rewrite length_take. lia.
    + rewrite length_app, length_take. do 2 f_equal. lia.
Qed.

Lemma run_group ic pre body :
  Forall (fun n => is_rep n = true) pre -> Forall (fun n => is_rep n = true) body ->
  forall rest pos gopen cap e cap',
    Re.run ic (pre ++ Re.GroupOpen :: body ++ [Re.GroupClose]) rest pos gopen cap
      = Some (e, cap') ->
    exists s1 sb post, rest = s1 ++ sb ++ post /\ accepts ic body sb
      /\ cap' = Some ((pos + length s1)%nat, (pos + length s1 + length sb)%nat).
Proof.
  intros Hpre Hbody.
  induction Hpre as [|[a lo hi| |] pre Hrep _ IH]; intros rest pos gopen cap e cap';
    simpl; [| |done|done].
  - intros (sb & post & Hrest & Hacc & ->)%run_body; [|done].
    exists [], sb, post. simpl. rewrite Nat.add_0_r. by split_and!.
  - intros (j & Hj & Hrun)%try_down_Some.
    destruct (IH _ _ _ _ _ _ Hrun) as (s1 & sb & post & Hrest & Hacc & ->).
    destruct (count_prefix_sound (Re.atom_matches ic a) hi rest) as (Hn & _ & _).
    exists (take j rest ++ s1), sb, post. split_and!.
    + by rewrite <- app_assoc, <- Hrest, take_drop.
    + done.
    + rewrite length_app, length_take. do 2 f_equal; lia.
Qed.

(** The first group that [findall] reports is a piece of the text that
    the body of the group accepts. *)
Lemma findall_head_group ic pre body text m ms :
  Forall (fun n => is_rep n = true) pre -> Forall (fun n => is_rep n = true) body ->
  Re.findall (pre ++ Re.GroupOpen :: body ++ [Re.GroupClose]) text ic = m :: ms ->
  accepts ic body m /\ exists before after, text = before ++ m ++ after.
Proof.
  intros Hpre Hbody Hfind.
  destruct (findall_from_head ic _ text text 0 m ms Hfind)
    as (i & e & cap & Hrun & -> & _).
  destruct (run_group ic pre body Hpre Hbody _ _ _ _ _ _ Hrun)
    as (s1 & sb & post & Hrest & Hacc & ->).
  assert (Hm : Re.group_text text (Some ((0 + i + length s1)%nat,
                                         (0 + i + length s1 + length sb)%nat)) = sb).
  { simpl. replace (i + length s1 + length sb - (i + length s1))%nat
      with (length sb) by lia.
    rewrite <- drop_drop, Hrest, drop_app_length. by rewrite take_app_length. }
  rewrite Hm. split; [done|].
  exists (take i text ++ s1), post.
  rewrite <- app_assoc, <- Hrest. by rewrite take_drop.
Qed.

Lemma case_fold_cases c :
  ((65 <= c <= 90)%N /\ Uni.case_fold c = (c + 32)%N)
  \/ ((c = 0x130 \/ c = 0x131)%N /\ Uni.case_fold c = 0x69%N)
  \/ (c = 0x17F%N /\ Uni.case_fold c = 0x73%N)
  \/ (c = 0x212A%N /\ Uni.case_fold c = 0x6B%N)
  \/ (~ (65 <= c <= 90)%N /\ c ≠ 0x130%N /\ c ≠ 0x131%N /\ c ≠ 0x17F%N
      /\ c ≠ 0x212A%N /\ Uni.case_fold c = c).
Proof.
  unfold Uni.case_fold, Uni.is_ascii_upper, Uni.in_range.
  destruct (N.leb_spec 65 c), (N.leb_spec c 90); simpl;
    try (left; split; [lia|done]);
    (destruct (N.eqb_spec c 0x130); simpl; [right; left; split; [lia|done]|];
     destruct (N.eqb_spec c 0x131); simpl; [right; left; split; [lia|done]|];
     destruct (N.eqb_spec c 0x17F); simpl; [right; right; left; split; [lia|done]|];
     destruct (N.eqb_spec c 0x212A); simpl; [right; right; right; left; split; [lia|done]|];
     right; right; right; right; split_and!; (done || lia)).
Qed.

Lemma alnum_class_matches c : Re.atom_matches true alnum_class c = is_id_char c.
Proof.
  unfold alnum_class, is_id_char. simpl. rewrite orb_false_r.
  destruct (case_fold_cases c)
    as [[Hc ->]|[[Hc ->]|[[Hc ->]|[[Hc ->]|(Hc & H1 & H2 & H3 & H4 & ->)]]]].
  - unfold Uni.ascii_upper, Uni.is_ascii_digit, Uni.is_ascii_upper,
      Uni.is_ascii_lower, Uni.in_range.
    compare_all; reflexivity.
  - destruct Hc as [-> | ->]; reflexivity.
  - subst c. reflexivity.
  - subst c. reflexivity.
  - unfold Uni.ascii_upper, Uni.is_ascii_digit, Uni.is_ascii_upper,
      Uni.is_ascii_lower, Uni.in_range.
    compare_all; simpl; compare_all; reflexivity.
Qed.

Lemma trailer_class_matches c :
  Re.atom_matches true
    (Re.In false [Re.CChar 0x28; Re.CDigit; Re.CChar 0x2B; Re.CChar 0x29]) c
  = is_trailer_char c.
Proof.
  unfold is_trailer_char. simpl. rewrite orb_false_r.
  assert (Hfold : forall x, (x = 0x28 \/ x = 0x2B \/ x = 0x29)%N ->
            (Uni.case_fold c =? x)%N = (c =? x)%N).
  { intros x Hx.
    destruct (case_fold_cases c)
      as [[Hc ->]|[[Hc ->]|[[Hc ->]|[[Hc ->]|(Hc & H1 & H2 & H3 & H4 & ->)]]]];
      [| | | |done];
      (destruct (N.eqb_spec c x), (N.eqb_spec (c + 32) x); try lia; try reflexivity) ||
      (destruct (N.eqb_spec c x); [lia|]; symmetry; apply N.eqb_neq; lia) || idtac.
    all: destruct (N.eqb_spec c x); [lia|]; apply N.eqb_neq; lia. }
  change (Uni.case_fold 40) with 40%N. change (Uni.case_fold 43) with 43%N.
  change (Uni.case_fold 41) with 41%N.
  rewrite !Hfold by lia.
  by destruct (c =? 40)%N, (Uni.isdecimal c), (c =? 43)%N, (c =? 41)%N.
Qed.

Lemma accepts_nil_inv ic s : accepts ic [] s -> s = [].
Proof. by inv 1. Qed.

Lemma accepts_rep_inv ic a lo hi p s :
  accepts ic (Re.Rep a lo hi :: p) s ->
  exists u s', s = u ++ s' /\ Forall (fun c => Re.atom_matches ic a c = true) u
    /\ (lo <= length u)%nat /\ (forall h, hi = Some h -> (length u <= h)%nat)
    /\ accepts ic p s'.
Proof. inv 1. eauto 10. Qed.

(** What the bodies of the groups of the three patterns accept. *)
Lemma accepts_identifier ic p m :
  ic = true ->
  p = [Re.plus alnum_class;
       Re.opt (Re.In false [Re.CChar 0x28; Re.CDigit; Re.CChar 0x2B; Re.CChar 0x29])]
  \/ p = [Re.plus alnum_class] ->
  accepts ic p m ->
  exists u v, m = u ++ v /\ u ≠ []
    /\ Forall (fun c => is_id_char c = true) u
    /\ (length v <= 1)%nat /\ Forall (fun c => is_trailer_char c = true) v.
Proof.
  intros -> [-> | ->] Hacc.
  - apply accepts_rep_inv in Hacc as (u & s' & -> & Hu & Hlen & _ & Hacc).
    apply accepts_rep_inv in Hacc as (v & s'' & -> & Hv & _ & Hmax & Hacc).
    apply accepts_nil_inv in Hacc as ->. rewrite app_nil_r.
    exists u, v. split_and!.
    + done.
    + intros ->. simpl in Hlen. lia.
    + eapply Forall_impl; [exact Hu|]. intros c Hc. rewrite <- alnum_class_matches. exact Hc.
    + by apply Hmax.
    + eapply Forall_impl; [exact Hv|]. intros c Hc. rewrite <- trailer_class_matches. exact Hc.
  - apply accepts_rep_inv in Hacc as (u & s' & -> & Hu & Hlen & _ & Hacc).
    apply accepts_nil_inv in Hacc as ->.
    exists u, []. split_and!.
    + done.
    + intros ->. simpl in Hlen. lia.
    + eapply Forall_impl; [exact Hu|]. intros c Hc. rewrite <- alnum_class_matches. exact Hc.
    + simpl. lia.
    + constructor.
Qed.

End CaptureFacts.

Section IdentifierClaims.
Context `{UnicodeData}.

(** The body of the group of each of the three patterns. *)
Lemma found_fcr_group (text fcr : str) :
  found_fcr text = Some fcr ->
  exists body,
    (body = [Re.plus alnum_class;
             Re.opt (Re.In false [Re.CChar 0x28; Re.CDigit; Re.CChar 0x2B;
                                  Re.CChar 0x29])]
     \/ body = [Re.plus alnum_class])
    /\ accepts true body fcr
    /\ exists before after, text = before ++ fcr ++ after.
Proof.
  intros Hfound.
  apply first_match_spec in Hfound as (i & p & Hi & Hhead & _).
  destruct (Re.findall p text true) as [|m ms] eqn:Hfind; [done|].
  injection Hhead as ->.
  destruct i as [|[|[|i]]]; [| | |done]; injection Hi as <-.
  - eexists. split; [by left|].
    eapply (findall_head_group true
              (Re.word (lit "RECEIPT") ++ [Re.star Re.Space] ++ Re.word (lit "NO")
               ++ [Re.opt (Re.In false [Re.CChar 0x2E; Re.CChar 0x3A]);
                   Re.star Re.Space])); [by repeat constructor..|exact Hfind].
  - eexists. split; [by right|].
    eapply (findall_head_group true
              (Re.word (lit "FCR") ++ [Re.star Re.Space] ++ Re.word (lit "NO")
               ++ [Re.opt (Re.In false [Re.CChar 0x2E; Re.CChar 0x3A]);
                   Re.star Re.Space])); [by repeat constructor..|exact Hfind].
  - eexists. split; [by right|].
    eapply (findall_head_group true
              (Re.word [0x631; 0x642; 0x645]%N ++ [Re.star Re.Space]
               ++ Re.word [0x627; 0x644; 0x625; 0x64A; 0x635; 0x627; 0x644]%N
               ++ [Re.star (Re.In false [Re.CSpace; Re.CChar 0x3A])]));
      [by repeat constructor..|exact Hfind].
Qed.

Lemma found_fcr_shape_parts (text fcr : str) :
  found_fcr text = Some fcr ->
  exists u v, fcr = u ++ v
    /\ Forall (fun c => is_id_char c = true) u
    /\ (length v <= 1)%nat /\ Forall (fun c => is_trailer_char c = true) v.
Proof.
  intros (body & Hbody & Hacc & _)%found_fcr_group.
  destruct (accepts_identifier true body fcr eq_refl Hbody Hacc)
    as (u & v & -> & _ & Hid & Hlen & Htrail).
  by exists u, v.
Qed.

(** X16: an identifier that is found on a page is a piece of the text of
    the page; it is one or more letters or digits, followed by at most one
    character that is a parenthesis, a plus sign or a digit.  So it is
    never empty, and the test of the loop for a found identifier never
    fails. *)
Theorem found_fcr_shape (text fcr : str) :
  found_fcr text = Some fcr ->
  (exists before after, text = before ++ fcr ++ after)
  /\ (exists u v, fcr = u ++ v /\ u ≠ []
        /\ Forall (fun c => is_id_char c = true) u
        /\ (length v <= 1)%nat /\ Forall (fun c => is_trailer_char c = true) v)
  /\ truthy fcr = true
  /\ detect text = Some fcr.
Proof.
  intros Hfound.
  destruct (found_fcr_group text fcr Hfound) as (body & Hbody & Hacc & Hpiece).
  destruct (accepts_identifier true body fcr eq_refl Hbody Hacc)
    as (u & v & -> & Hu & Hid & Hlen & Htrail).
  assert (Htruthy : truthy (u ++ v) = true) by (by destruct u).
  split_and!; [done|by exists u, v|done|].
  unfold detect. rewrite Hfound, Htruthy.
  destruct Hpiece as (before & after & ->). by destruct before, u.
Qed.

End IdentifierClaims.

Lemma found_fcr_shape_witness :
  truthy (lit "AB12(") = true.
Proof.
  apply (found_fcr_shape (lit "RECEIPT NO AB12(3)") (lit "AB12(")). reflexivity.
Defined.

(** ** The file name of an identifier that was found *)

Section FoundFilename.
Context `{UnicodeData}.

Ltac compare_all :=
  repeat match goal with
    | |- context [(?a <=? ?b)%N] => destruct (N.leb_spec a b); simpl in *; try lia
    | |- context [(?a <? ?b)%N] => destruct (N.ltb_spec a b); simpl in *; try lia
    | |- context [(?a =? ?b)%N] => destruct (N.eqb_spec a b); simpl in *; try lia
    | H : context [(?a <=? ?b)%N] |- _ => destruct (N.leb_spec a b); simpl in *; try lia
    | H : context [(?a <? ?b)%N] |- _ => destruct (N.ltb_spec a b); simpl in *; try lia
    | H : context [(?a =? ?b)%N] |- _ => destruct (N.eqb_spec a b); simpl in *; try lia
    end.

Lemma ascii_id_char_safe c : (c < 128)%N -> is_id_char c = true -> safe c = true.
Proof.
  unfold is_id_char, safe, Uni.isword, Uni.is_ascii_digit, Uni.is_ascii_upper,
    Uni.is_ascii_lower, Uni.in_range.
  intros Hc Hid. compare_all; done.
Qed.

Lemma ascii_trailer_char_safe c :
  (c < 128)%N -> is_trailer_char c = true -> safe c = Uni.is_ascii_digit c.
Proof.
  unfold is_trailer_char, safe, Uni.isword, Uni.isdecimal, Uni.is_ascii_digit,
    Uni.is_ascii_upper, Uni.is_ascii_lower, Uni.in_range.
  intros Hc Hid. compare_all; done.
Qed.

(** X17: for an identifier of ASCII characters that is found on a page,
    sanitising changes nothing but a final parenthesis or plus sign, which
    becomes an underscore: the file name is [FCR_], the identifier with
    that one change, and [.pdf]. *)
Theorem found_fcr_filename (text fcr : str) :
  found_fcr text = Some fcr -> Forall (fun c => (c < 128)%N) fcr ->
  exists u v, fcr = u ++ v /\ (length v <= 1)%nat
    /\ clean_fcr_num fcr
       = u ++ ((fun c => if Uni.is_ascii_digit c then c else 0x5F%N) <$> v)
    /\ filename fcr
       = lit "FCR_" ++ u ++ ((fun c => if Uni.is_ascii_digit c then c else 0x5F%N) <$> v)
         ++ lit ".pdf".
Proof.
  intros Hfound Hascii.
  destruct (found_fcr_shape_parts text fcr Hfound) as (u & v & -> & Hid & Hlen & Htrail).
  apply Forall_app in Hascii as [Hau Hav].
  assert (Hclean : clean_fcr_num (u ++ v)
            = u ++ ((fun c => if Uni.is_ascii_digit c then c else 0x5F%N) <$> v)).
  { rewrite clean_fcr_num_map, fmap_app. f_equal.
    - rewrite <- (list_fmap_id u) at 2. apply list_fmap_ext. intros i c Hi. simpl.
      apply list_elem_of_lookup_2 in Hi.
      rewrite ascii_id_char_safe; [done| |].
      + by apply (proj1 (Forall_forall _ _) Hau).
      + by apply (proj1 (Forall_forall _ _) Hid).
    - apply list_fmap_ext. intros i c Hi. apply list_elem_of_lookup_2 in Hi.
      rewrite ascii_trailer_char_safe; [done| |].
      + by apply (proj1 (Forall_forall _ _) Hav).
      + by apply (proj1 (Forall_forall _ _) Htrail). }
  exists u, v. split_and!; [done..|].
  unfold filename. by rewrite Hclean, <- app_assoc.
Qed.

End FoundFilename.

Lemma found_fcr_filename_witness :
  exists u v, lit "AB12(" = u ++ v /\ (length v <= 1)%nat
    /\ filename (lit "AB12(")
       = lit "FCR_" ++ u ++ ((fun c => if Uni.is_ascii_digit c then c else 0x5F%N) <$> v)
         ++ lit ".pdf".
Proof.
  destruct (found_fcr_filename (lit "RECEIPT NO AB12(3)") (lit "AB12("))
    as (u & v & Huv & Hlen & _ & Hname).
  - reflexivity.
  - by repeat constructor.
  - by exists u, v.
Defined.

(** ** The upload, the temporary page and the output files *)

Section MainFacts.
Context `{UnicodeData} {Page Image : Type} `{!Collaborators Page Image}.
Implicit Types (page : Page) (pages : list Page) (w : world Page Image)
  (temp_dir path : str).

Ltac run_monad :=
  unfold returned, after, extract_text_from_page, write_pdf, convert_from_path,
    ocr, st_error, log, try_except, lift, ret, bind; simpl.

(** What [extract_text_from_page] leaves in the world: the files other
    than the temporary page are as before, and the only write in the
    journal is that of the temporary page. *)
Lemma extract_text_from_page_world page temp_dir w :
  let w' := (extract_text_from_page page temp_dir w).2 in
  let temp_pdf_path := path_join temp_dir (lit "temp_page.pdf") in
  (forall path, path ≠ temp_pdf_path -> disk w' !! path = disk w !! path)
  /\ (forall path doc, Wrote path doc ∈ journal w' ->
        Wrote path doc ∈ journal w \/ path = temp_pdf_path).
Proof.
  intros w' temp_pdf_path. subst w' temp_pdf_path. run_monad.
  destruct (page_extract_text page) as [text|e]; simpl.
  2:{ split; [done|]. intros path doc [Hin|[=]%list_elem_of_singleton]%elem_of_app.
      by left. }
  destruct (truthy text && truthy (Uni.strip text)); simpl; [by split; [|left]|].
  destruct (pdf_write_error _ _); simpl.
  { split; [done|]. intros path doc [Hin|[=]%list_elem_of_singleton]%elem_of_app.
    by left. }
  rewrite lookup_insert_eq.
  assert (Hdisk : forall path, path ≠ path_join temp_dir (lit "temp_page.pdf") ->
            (<[path_join temp_dir (lit "temp_page.pdf") := [page]]> (disk w)) !! path
            = disk w !! path) by (intros; by rewrite lookup_insert_ne).
  destruct (rasterize _ _ _ _) as [[|image0 imgs]|e]; simpl;
    try destruct (image_to_string _ _); simpl; (split; [done|]);
    intros path doc Hin; repeat (apply elem_of_app in Hin as [Hin|Hin]);
    first [by left
          |apply list_elem_of_singleton in Hin;
           first [discriminate|injection Hin as -> _; by right]].
Qed.

Lemma loop_cons temp_dir total_pages page_num page pages st w :
  exists st' w1,
    extract_text_from_page page temp_dir w = (Ok (page_text page temp_dir), w1)
    /\ loop temp_dir total_pages page_num (page :: pages) st w
       = loop temp_dir total_pages (page_num + 1) pages st' w1.
Proof.
  destruct (extract_text_from_page_spec page temp_dir w) as [w1 Hw1].
  simpl. unfold bind at 1, loop_body, bind at 1. rewrite Hw1.
  destruct (negb (truthy (page_text page temp_dir))); unfold ret; by eexists _, w1.
Qed.

Lemma loop_world temp_dir total_pages pages : forall page_num st w,
  let w' := (loop temp_dir total_pages page_num pages st w).2 in
  let temp_pdf_path := path_join temp_dir (lit "temp_page.pdf") in
  (forall path, path ≠ temp_pdf_path -> disk w' !! path = disk w !! path)
  /\ (forall path doc, Wrote path doc ∈ journal w' ->
        Wrote path doc ∈ journal w \/ path = temp_pdf_path).
Proof.
  induction pages as [|page pages IH]; intros page_num st w; [by split; [|left]|].
  destruct (loop_cons temp_dir total_pages page_num page pages st w)
    as (st' & w1 & Hw1 & ->).
  pose proof (extract_text_from_page_world page temp_dir w) as [Hdisk Hwrote].
  rewrite Hw1 in Hdisk, Hwrote. simpl in Hdisk, Hwrote.
  destruct (IH (page_num + 1) st' w1) as [Hdisk' Hwrote']. split.
  - intros path Hpath. rewrite Hdisk' by done. by apply Hdisk.
  - intros path doc Hin. destruct (Hwrote' path doc Hin) as [Hin1|?]; [|by right].
    by apply Hwrote.
Qed.

Lemma find_fcr_ranges_world pages temp_dir w :
  exists w', find_fcr_ranges pages temp_dir w
             = (Ok (segment ((fun page => page_text page temp_dir) <$> pages)), w')
    /\ (forall path, path ≠ path_join temp_dir (lit "temp_page.pdf") ->
          disk w' !! path = disk w !! path)
    /\ (forall path doc, Wrote path doc ∈ journal w' ->
          Wrote path doc ∈ journal w \/ path = path_join temp_dir (lit "temp_page.pdf")).
Proof.
  unfold find_fcr_ranges, bind, segment.
  pose proof (loop_world temp_dir (Z.of_nat (length pages)) pages 0 (SegState [] None 0) w)
    as Hworld.
  destruct (loop_steps temp_dir (Z.of_nat (length pages)) pages 0 (SegState [] None 0) w)
    as [w' Hloop].
  rewrite Hloop in *. exists w'. rewrite length_fmap. by split.
Qed.

End MainFacts.

Section MainClaims.
Context `{UnicodeData} {Page Image : Type} `{!Collaborators Page Image}.
Implicit Types (pages uploaded : list Page) (w : world Page Image)
  (temp_dir path : str).


(** The start of the processing: the upload is saved and found. *)
Lemma main_processing_find uploaded temp_dir w :
  pdf_write_error (path_join temp_dir (lit "input.pdf")) uploaded = None ->
  exists w2,
    (write_pdf (path_join temp_dir (lit "input.pdf")) uploaded ;;;
     reader_pages <- read_pdf (path_join temp_dir (lit "input.pdf")) ;;
     find_fcr_ranges reader_pages temp_dir) w
    = (Ok (segment ((fun page => page_text page temp_dir) <$> uploaded)), w2)
    /\ (forall path, path ≠ path_join temp_dir (lit "temp_page.pdf") ->
          disk w2 !! path
          = (<[path_join temp_dir (lit "input.pdf") := uploaded]> (disk w)) !! path)
    /\ (forall path doc, Wrote path doc ∈ journal w2 ->
          Wrote path doc ∈ journal w
          \/ path = path_join temp_dir (lit "input.pdf")
          \/ path = path_join temp_dir (lit "temp_page.pdf")).
Proof.
  intros Hw. unfold bind at 1, write_pdf. rewrite Hw.
  unfold bind at 1, read_pdf. simpl. rewrite lookup_insert_eq.
  destruct (find_fcr_ranges_world uploaded temp_dir
              (World (<[path_join temp_dir (lit "input.pdf") := uploaded]> (disk w))
                     (journal w ++ [Wrote (path_join temp_dir (lit "input.pdf")) uploaded])))
    as (w2 & Hfind & Hdisk & Hwrote).
  exists w2. split_and!; [done|done|].
  intros path doc Hin. destruct (Hwrote path doc Hin) as [Hin'|?]; [|by right; right].
  simpl in Hin'. apply elem_of_app in Hin' as [?|[= -> _]%list_elem_of_singleton];
    [by left|by right; left].
Qed.

(** X18: [main] reports "No FCR numbers found in the document" and
    returns exactly when the map of the segmenter is empty.  In that case
    the report is the last thing that happens, and apart from the saved
    upload and the temporary page no file has been written: there is no
    output file and no archive. *)
Theorem main_processing_nothing_found uploaded temp_dir w :
  pdf_write_error (path_join temp_dir (lit "input.pdf")) uploaded = None ->
  let m := main_processing uploaded temp_dir in
  let d := segment ((fun page => page_text page temp_dir) <$> uploaded) in
  (returned m w = Some None <-> d = [])
  /\ (d = [] ->
      last (journal (after m w)) = Some (StError (lit "No FCR numbers found in the document"))
      /\ forall path doc, Wrote path doc ∈ journal (after m w) ->
           Wrote path doc ∈ journal w
           \/ path = path_join temp_dir (lit "input.pdf")
           \/ path = path_join temp_dir (lit "temp_page.pdf")).
Proof.
  intros Hw m d. subst m.
  destruct (main_processing_find uploaded temp_dir w Hw) as (w2 & Hfind & Hdisk & Hwrote).
  fold d in Hfind.
  assert (Hrun : main_processing uploaded temp_dir w
            = match d with
              | [] => (Ok None, World (disk w2)
                         (journal w2 ++ [StError (lit "No FCR numbers found in the document")]))
              | _ :: _ =>
                  (reader_pages' <- read_pdf (path_join temp_dir (lit "input.pdf")) ;;
                   output_files <- split_pdf_by_fcr_ranges reader_pages' d temp_dir ;;
                   archive <- create_zip output_files ;;
                   ret (Some (d, output_files, archive))) w2
              end).
  { unfold main_processing. cbv zeta.
    unfold bind at 1 in Hfind. unfold bind at 1.
    destruct (write_pdf _ _ w) as [[[]|e] w1]; [|done].
    unfold bind at 1 in Hfind. unfold bind at 1.
    destruct (read_pdf _ w1) as [[reader_pages|e] w1']; [|done].
    unfold bind at 1. rewrite Hfind. by destruct d. }
  unfold returned, after. rewrite Hrun. split.
  - destruct d as [|kv d']; [done|]. split; [|done].
    unfold bind at 1. destruct (read_pdf _ w2) as [[reader_pages'|e] w3]; [|done].
    unfold bind at 1.
    destruct (split_pdf_by_fcr_ranges _ _ _ w3) as [[output_files|e] w4]; [|done].
    unfold bind at 1. by destruct (create_zip _ w4) as [[archive|e] w5].
  - intros ->. simpl. split; [apply last_snoc|].
    intros path doc [Hin|[=]%list_elem_of_singleton]%elem_of_app. by apply Hwrote.
Qed.


End MainClaims.

Lemma main_processing_nothing_found_witness :
  returned (main_processing [digital "invoice"; blank] (lit "tmp")) empty_world
  = Some None.
Proof.
  apply (main_processing_nothing_found [digital "invoice"; blank] (lit "tmp") empty_world);
    reflexivity.
Defined.


(** ** Pages before the first identifier *)

Section LeadingPages.
Context `{UnicodeData} {Page Image : Type} `{!Collaborators Page Image}.
Implicit Types (pages : list Page) (w : world Page Image) (temp_dir : str).

Lemma first_detection_least (texts : list str) : forall n f,
  first_detection n texts = Some f ->
  forall i : nat, n + Z.of_nat i < f -> detected texts i = None.
Proof.
  induction texts as [|text texts IH]; intros n f; simpl; [done|].
  destruct (detect text) as [fcr|] eqn:Hd.
  - intros [= <-] i Hi. lia.
  - intros Hf [|i] Hi; [unfold detected; simpl; by rewrite Hd|].
    apply (IH (n + 1) f Hf i). lia.
Qed.

Lemma first_detection_None (texts : list str) : forall n,
  first_detection n texts = None -> forall i : nat, detected texts i = None.
Proof.
  induction texts as [|text texts IH]; intros n; simpl; [by intros _ [|i]|].
  destruct (detect text) as [fcr|] eqn:Hd; [done|].
  intros Hf [|i]; [unfold detected; simpl; by rewrite Hd|]. by apply (IH (n + 1)).
Qed.

(** X20: the pages before the first page that shows an identifier are in
    no range of the map, and so in no output document; when no page shows
    an identifier the map is empty. *)
Theorem find_fcr_ranges_leading_pages pages temp_dir w :
  let texts := (fun page => page_text page temp_dir) <$> pages in
  exists d, returned (find_fcr_ranges pages temp_dir) w = Some d
    /\ match first_detection 0 texts with
       | Some f => forall p, p < f -> covers d p = false
       | None => d = []
       end.
Proof.
  intros texts. exists (segment texts). split; [apply find_fcr_ranges_segment|].
  destruct (segment_purity_inv texts) as (_ & Hent & _).
  destruct (first_detection 0 texts) as [f|] eqn:Hf.
  - intros p Hp. apply not_true_is_false.
    intros (k & s & e & Hin & Hse)%covers_elem_of.
    destruct (Hent _ Hin) as (s' & e' & [= -> ->] & _ & Hs & _). simpl in Hs.
    rewrite (first_detection_least texts 0 f Hf s') in Hs; [done|lia].
  - unfold segment. destruct (fcr_ranges _) as [|kv d]; [done|].
    destruct (Hent kv) as (s' & e' & _ & _ & Hs & _); [left|].
    by rewrite (first_detection_None texts 0 Hf) in Hs.
Qed.

End LeadingPages.

(** ** An inverted range *)

Section InvertedRange.
Context `{UnicodeData} {Page Image : Type} `{!Collaborators Page Image}.
Implicit Types (pages : list Page) (w : world Page Image) (output_dir : str).

(** X21: for an entry whose start lies after its end the splitter reads
    no page, whatever the bounds: it writes a document without pages and
    returns the pair of the entry. *)
Theorem split_inverted_range pages k s e output_dir w :
  e < s ->
  pdf_write_error (output_path output_dir k) [] = None ->
  split_pdf_by_fcr_ranges pages [(k, (s, e))] output_dir w
  = (Ok [(filename k, output_path output_dir k)],
     World (<[output_path output_dir k := []]> (disk w))
           (journal w ++ [Wrote (output_path output_dir k) []])).
Proof.
  intros Hse Hw. unfold split_pdf_by_fcr_ranges. simpl.
  unfold bind at 1, lift, range. rewrite seqZ_nil by lia. simpl.
  unfold bind, write_pdf. fold (output_path output_dir k). by rewrite Hw.
Qed.

End InvertedRange.

Lemma split_inverted_range_witness :
  returned (split_pdf_by_fcr_ranges [digital "only page"] [(lit "K", (7, 2))] (lit "out"))
    empty_world
  = Some [(lit "FCR_K.pdf", lit "out/FCR_K.pdf")].
Proof.
  unfold returned.
  rewrite (split_inverted_range [digital "only page"] (lit "K") 7 2 (lit "out") empty_world);
    [reflexivity|lia|reflexivity].
Defined.

(** ** The identifier is not cut short *)

Section LongestRun.
Context `{UnicodeData}.
Implicit Types (p pre q : Re.pattern) (rest post text : str) (ic : bool).

Lemma try_down_first {R} (k : nat -> option R) lo n r :
  (lo <= n)%nat -> k n = Some r -> Re.try_down k lo n = Some r.
Proof.
  intros Hlo Hk. destruct n as [|n]; simpl; rewrite Hk;
    by replace (_ <? lo)%nat with false by (symmetry; apply Nat.ltb_ge; lia).
Qed.

(** The greedy count stops at a character that does not match. *)
Lemma count_prefix_next (f : N -> bool) rest c :
  rest !! Re.count_prefix f None rest = Some c -> f c = false.
Proof.
  induction rest as [|c' rest IH]; simpl; [done|].
  destruct (f c') eqn:Hc'; simpl; [done|]. by intros [= <-].
Qed.

(** The atoms before the group consume a prefix of the text. *)
Lemma run_pre ic pre q : Forall (fun n => is_rep n = true) pre ->
  forall rest pos gopen cap e cap',
    Re.run ic (pre ++ q) rest pos gopen cap = Some (e, cap') ->
    exists s1 post, rest = s1 ++ post
      /\ Re.run ic q post (pos + length s1)%nat gopen cap = Some (e, cap').
Proof.
  induction 1 as [|[a lo hi| |] pre Hrep _ IH]; intros rest pos gopen cap e cap';
    simpl; [| |done|done].
  - intros Hrun. exists [], rest. by rewrite Nat.add_0_r.
  - intros (j & Hj & Hrun)%try_down_Some.
    destruct (IH _ _ _ _ _ _ Hrun) as (s1 & post & Hrest & Hq).
    destruct (count_prefix_sound (Re.atom_matches ic a) hi rest) as (Hn & _ & _).
    exists (take j rest ++ s1), post. split.
    + by rewrite <- app_assoc, <- Hrest, take_drop.
    + rewrite length_app, length_take.
      by replace (pos + (j `min` length rest + length s1))%nat
        with (pos + j + length s1)%nat by lia.
Qed.

(** The group of the three patterns: the longest run of letters and
    digits, and after it at most one more character. *)
Lemma run_identifier ic a tail post pos gopen cap e cap' :
  tail = [] \/ (exists b, tail = [Re.opt b]) ->
  Re.run ic (Re.GroupOpen :: Re.plus a :: tail ++ [Re.GroupClose]) post pos gopen cap
    = Some (e, cap') ->
  let n := Re.count_prefix (Re.atom_matches ic a) None post in
  exists m : nat, cap' = Some (pos, (pos + n + m)%nat)
    /\ (1 <= n)%nat /\ (m <= 1)%nat /\ (n + m <= length post)%nat.
Proof.
  intros Htail Hrun n.
  destruct (count_prefix_sound (Re.atom_matches ic a) None post) as (Hn & _ & _).
  fold n in Hn. simpl in Hrun. fold n in Hrun.
  destruct (decide (1 <= n)%nat) as [Hpos|Hzero].
  2:{ assert (n = 0%nat) as Hn0 by lia. rewrite Hn0 in Hrun. done. }
  destruct Htail as [->|[b ->]]; simpl in Hrun.
  - rewrite (try_down_first _ 1 n (pos + n, Some (pos, pos + n)))%nat in Hrun
      by done.
    injection Hrun as <- <-. exists 0%nat. split_and!; [f_equal; f_equal; lia|lia..].
  - set (m := Re.count_prefix (Re.atom_matches ic b) (Some 1%nat) (drop n post)) in *.
    destruct (count_prefix_sound (Re.atom_matches ic b) (Some 1%nat) (drop n post))
      as (Hm & _ & Hm1).
    fold m in Hm, Hm1. specialize (Hm1 1%nat eq_refl). rewrite length_drop in Hm.
    rewrite (try_down_first _ 1 n (pos + n + m, Some (pos, pos + n + m)))%nat in Hrun.
    + injection Hrun as <- <-. exists m. split_and!; [done|lia..].
    + done.
    + fold m. by apply try_down_first; [lia|].
Qed.

(** The first group that [findall] reports, for a pattern of that form. *)
Lemma findall_head_identifier ic pre a tail text m ms :
  Forall (fun n => is_rep n = true) pre ->
  tail = [] \/ (exists b, tail = [Re.opt b]) ->
  Re.findall (pre ++ Re.GroupOpen :: Re.plus a :: tail ++ [Re.GroupClose]) text ic
    = m :: ms ->
  exists before u v after,
    text = before ++ u ++ v ++ after /\ m = u ++ v /\ u ≠ [] /\ (length v <= 1)%nat
    /\ forall c, head (v ++ after) = Some c -> Re.atom_matches ic a c = false.
Proof.
  intros Hpre Htail Hfind.
  destruct (findall_from_head ic _ text text 0 m ms Hfind)
    as (i & e & cap & Hrun & -> & _).
  destruct (run_pre ic pre _ Hpre _ _ _ _ _ _ Hrun) as (s1 & post & Hrest & Hq).
  destruct (run_identifier ic a tail post _ _ _ _ _ Htail Hq)
    as (k & -> & Hn & Hk & Hlen).
  set (n := Re.count_prefix (Re.atom_matches ic a) None post) in *.
  exists (take i text ++ s1), (take n post), (take k (drop n post)),
    (drop k (drop n post)).
  assert (Hpost : drop (0 + i + length s1) text = post).
  { simpl. by rewrite <- drop_drop, Hrest, drop_app_length. }
  split_and!.
  - rewrite !take_drop. rewrite <- app_assoc, <- Hrest. by rewrite take_drop.
  - simpl. simpl in Hpost. rewrite Hpost.
    replace (i + length s1 + n + k - (i + length s1))%nat with (n + k)%nat by lia.
    rewrite <- (take_drop n post) at 1.
    by rewrite (take_app_add' (take n post)) by (rewrite length_take; lia).
  - intros Hnil%(f_equal length). rewrite length_take in Hnil. simpl in Hnil. lia.
  - rewrite length_take. lia.
  - intros c. rewrite take_drop, head_lookup, lookup_drop, Nat.add_0_r.
    apply count_prefix_next.
Qed.

End LongestRun.

Section LongestRunClaim.
Context `{UnicodeData}.

(** X22: the identifier that is found is not cut short: in the text it
    begins with a run of letters and digits that is followed by no further
    letter or digit, and after that run it has at most one more
    character. *)
Theorem found_fcr_longest (text fcr : str) :
  found_fcr text = Some fcr ->
  exists before u v after,
    text = before ++ u ++ v ++ after /\ fcr = u ++ v /\ u ≠ [] /\ (length v <= 1)%nat
    /\ forall c, head (v ++ after) = Some c -> is_id_char c = false.
Proof.
  intros Hfound.
  apply first_match_spec in Hfound as (i & p & Hi & Hhead & _).
  destruct (Re.findall p text true) as [|m ms] eqn:Hfind; [done|].
  injection Hhead as ->.
  assert (Hcase : exists before u v after,
            text = before ++ u ++ v ++ after /\ fcr = u ++ v /\ u ≠ []
            /\ (length v <= 1)%nat
            /\ forall c, head (v ++ after) = Some c ->
                 Re.atom_matches true alnum_class c = false).
  { destruct i as [|[|[|i]]]; [| | |done]; injection Hi as <-.
    - apply (findall_head_identifier true
               (Re.word (lit "RECEIPT") ++ [Re.star Re.Space] ++ Re.word (lit "NO")
                ++ [Re.opt (Re.In false [Re.CChar 0x2E; Re.CChar 0x3A]);
                    Re.star Re.Space])
               alnum_class
               [Re.opt (Re.In false [Re.CChar 0x28; Re.CDigit; Re.CChar 0x2B;
                                     Re.CChar 0x29])] text fcr ms);
        [by repeat constructor|right; by eexists|exact Hfind].
    - apply (findall_head_identifier true
               (Re.word (lit "FCR") ++ [Re.star Re.Space] ++ Re.word (lit "NO")
                ++ [Re.opt (Re.In false [Re.CChar 0x2E; Re.CChar 0x3A]);
                    Re.star Re.Space])
               alnum_class [] text fcr ms);
        [by repeat constructor|by left|exact Hfind].
    - apply (findall_head_identifier true
               (Re.word [0x631; 0x642; 0x645]%N ++ [Re.star Re.Space]
                ++ Re.word [0x627; 0x644; 0x625; 0x64A; 0x635; 0x627; 0x644]%N
                ++ [Re.star (Re.In false [Re.CSpace; Re.CChar 0x3A])])
               alnum_class [] text fcr ms);
        [by repeat constructor|by left|exact Hfind]. }
  destruct Hcase as (before & u & v & after & Htext & Hfcr & Hu & Hv & Hnext).
  exists before, u, v, after. split_and!; [done..|].
  intros c Hc. rewrite <- alnum_class_matches. by apply Hnext.
Qed.

End LongestRunClaim.

Lemma found_fcr_longest_witness :
  exists before u v after,
    lit "FCR NO: AB12 (copy)" = before ++ u ++ v ++ after /\ lit "AB12" = u ++ v.
Proof.
  destruct (found_fcr_longest (lit "FCR NO: AB12 (copy)") (lit "AB12"))
    as (before & u & v & after & Htext & Hfcr & _); [reflexivity|].
  by exists before, u, v, after.
Defined.
